(** * Account ledger, card validation and session validity

    A shallow embedding of the funding and history procedures of
    [server/routers/account.ts], of the card validator
    [lib/utils/card-validation.ts] and of the session expiry check of
    [scripts/test-session-expiry.js], with the properties the
    specification states about them. *)

From Stdlib Require Import ZArith NArith List Bool Lia QArith Sorting.Sorted.
From Stdlib Require Import Strings.String Strings.Ascii.
From Stdlib Require Import Numbers.DecimalString.
From stdpp Require Import gmap list strings sorting.

Close Scope Q_scope.
Local Open Scope Z_scope.

(** ** JavaScript strings

    A JavaScript string is a sequence of UTF-16 code units.  The
    validators only look at single code units, so a string is a list of
    code unit values. *)

Abbreviation jsstring := (list N) (only parsing).

Definition js (s : string) : jsstring :=
  map N_of_ascii (list_ascii_of_string s).

(** The class [\d] of a regular expression without the [u] flag: the
    ASCII digits. *)
Definition is_digit (c : N) : bool := ((48 <=? c) && (c <=? 57))%N.

(** The class [\s]: WhiteSpace and LineTerminator of ECMAScript. *)
Definition is_whitespace (c : N) : bool :=
  ((9 <=? c) && (c <=? 13)
   || (c =? 32) || (c =? 160) || (c =? 5760)
   || (8192 <=? c) && (c <=? 8202)
   || (c =? 8232) || (c =? 8233) || (c =? 8239) || (c =? 8287)
   || (c =? 12288) || (c =? 65279))%N.

Definition is_dash (c : N) : bool := (c =? 45)%N.

(** [/^\d+$/.test(s)] *)
Definition re_digits (s : jsstring) : bool :=
  negb (Nat.eqb (length s) 0) && forallb is_digit s.

(** [/^\d{13,19}$/.test(s)] *)
Definition re_digits_13_19 (s : jsstring) : bool :=
  (13 <=? length s)%nat && (length s <=? 19)%nat && forallb is_digit s.

(** [/^\d{9}$/.test(s)] *)
Definition re_digits_9 (s : jsstring) : bool :=
  Nat.eqb (length s) 9 && forallb is_digit s.

(** [s.replace(/\s|-/g, "")] *)
Definition replace_ws_dash (s : jsstring) : jsstring :=
  filter (fun c => negb (is_whitespace c || is_dash c)) s.

(** [parseInt(s[i], 10)] on the one-character string [s[i]]; [None] is
    NaN, which is what [parseInt] gives for a character that is not a
    digit and for [undefined] (an index out of range). *)
Definition parseInt10 (ch : option N) : option Z :=
  match ch with
  | Some c => if is_digit c then Some (Z.of_N c - 48) else None
  | None => None
  end.

(** ** Card validation *)

Module CardValidation.

(** Body of the [for] loop of [validateLuhn]: [n] is [i + 1], so the
    loop runs while [i >= 0]; [sum] is NaN-propagating. *)
Fixpoint luhn_loop (cardNumber : jsstring) (n : nat)
    (sum : option Z) (isEven : bool) : option Z :=
  match n with
  | O => sum
  | S i =>
      let digit := parseInt10 (cardNumber !! i) in
      let digit :=
        if isEven then
          (fun d => let d := d * 2 in if 9 <? d then d - 9 else d) <$> digit
        else digit in
      let sum := s ← sum; d ← digit; Some (s + d) in
      luhn_loop cardNumber i sum (negb isEven)
  end.

Definition validateLuhn (cardNumber : jsstring) : bool :=
  if negb (re_digits cardNumber) then false
  else if (length cardNumber <? 13)%nat || (19 <? length cardNumber)%nat
  then false
  else
    match luhn_loop cardNumber (length cardNumber) (Some 0) false with
    | Some sum => sum mod 10 =? 0
    | None => false
    end.

Definition isValidCardNumber (cardNumber : jsstring) : bool :=
  (* [!cardNumber]: the empty string is falsy *)
  if Nat.eqb (length cardNumber) 0 then false
  else
    let cleaned := replace_ws_dash cardNumber in
    if negb (re_digits_13_19 cleaned) then false
    else validateLuhn cleaned.

(** *** The Luhn checksum as the specification words it

    Digits are indexed from the right, starting at 0; the digits at the
    indices 1, 3, 5, ... are doubled, 9 is subtracted from a doubled
    digit that exceeds 9, and the sum must be divisible by 10. *)

Definition digit_value (c : N) : Z := Z.of_N c - 48.

Definition luhn_term (index_from_right : nat) (d : Z) : Z :=
  if Nat.odd index_from_right
  then (if 9 <? 2 * d then 2 * d - 9 else 2 * d)
  else d.

Fixpoint luhn_sum_from (index_from_right : nat) (right_to_left : list Z) : Z :=
  match right_to_left with
  | [] => 0
  | d :: ds => luhn_term index_from_right d
               + luhn_sum_from (S index_from_right) ds
  end.

Definition luhn_checksum_passes (digits : jsstring) : bool :=
  luhn_sum_from 0 (rev (map digit_value digits)) mod 10 =? 0.

(** Removing only the space U+0020 and the dash. *)
Definition strip_space_dash (s : jsstring) : jsstring :=
  filter (fun c => negb ((c =? 32)%N || is_dash c)) s.

End CardValidation.

(** ** Session validity *)

Module Session.

Definition bufferMs : Z := 5 * 60 * 1000.

(** The [check-status] computation: [expiresAt] and [now] are the
    [getTime()] values, in milliseconds. *)
Definition expiresIn (expiresAt now : Z) : Z := expiresAt - now.

Definition isValid (expiresAt now : Z) : bool :=
  bufferMs <? expiresIn expiresAt now.

End Session.

(** ** Numbers

    Amounts and balances are JavaScript numbers.  The ledger only adds
    them and tests them for being positive, so it is stated over any
    type with these operations. *)

Class Number (num : Type) := {
  num_zero : num;
  num_add : num -> num -> num;
  (** zod's [.positive()]: [n > 0] *)
  num_positive : num -> bool
}.

(** Exact decimals, as rationals: the numbers of the samples.  A
    JavaScript number is an IEEE double, whose addition is neither
    exact nor associative; the properties of the ledger are stated over
    any [Number] and use no law of addition. *)
#[export] Instance Q_Number : Number Q := {
  num_zero := 0%Q;
  num_add := Qplus;
  num_positive q := negb (Qle_bool q 0)
}.

(** ** The tables

    [accounts] is keyed by its primary key [id]; [transactions] is kept
    in insertion (rowid) order. *)

(** Modelled from the spec: the [accounts] table of [lib/db/schema],
    which is not among the sources.  The columns are those of the
    Account of the data model, under the names the procedures use; the
    key [id] is the key of the map. *)
Record Account (num : Type) := mkAccount {
  acc_userId : Z;
  acc_accountNumber : string;
  acc_accountType : string;
  acc_balance : num;
  acc_status : string
}.
Arguments mkAccount {num}.
Arguments acc_userId {num}.
Arguments acc_accountNumber {num}.
Arguments acc_accountType {num}.
Arguments acc_balance {num}.
Arguments acc_status {num}.

(** Modelled from the spec: the [transactions] table of
    [lib/db/schema], with the columns of the Transaction of the data
    model, which are the eight columns [getTransactions] selects. *)
Record Transaction (num : Type) := mkTransaction {
  tx_id : Z;
  tx_accountId : Z;
  tx_type : string;
  tx_amount : num;
  tx_description : string;
  tx_status : string;
  tx_createdAt : Z;
  tx_processedAt : Z
}.
Arguments mkTransaction {num}.
Arguments tx_id {num}.
Arguments tx_accountId {num}.
Arguments tx_type {num}.
Arguments tx_amount {num}.
Arguments tx_description {num}.
Arguments tx_status {num}.
Arguments tx_createdAt {num}.
Arguments tx_processedAt {num}.

Record Store (num : Type) := mkStore {
  accounts : gmap Z (Account num);
  transactions : list (Transaction num)
}.
Arguments mkStore {num}.
Arguments accounts {num}.
Arguments transactions {num}.

(** *** Queries *)

(** [ORDER BY key DESC].  SQL leaves the order of rows with equal keys
    to the engine; here they keep their scan order, on every
    evaluation. *)
Fixpoint insert_desc {A} (key : A -> Z) (x : A) (rows : list A) : list A :=
  match rows with
  | [] => [x]
  | y :: rows' =>
      if key x <? key y then y :: insert_desc key x rows' else x :: rows
  end.

Definition orderBy_desc {A} (key : A -> Z) (rows : list A) : list A :=
  foldr (insert_desc key) [] rows.

(** Two rows in descending, and in strictly descending, order. *)
Definition desc {A} (key : A -> Z) (x y : A) : Prop := key y <= key x.
Definition strictly_desc {A} (key : A -> Z) (x y : A) : Prop := key y < key x.

(** [LIMIT limit OFFSET offset] *)
Definition limit_offset {A} (limit offset : Z) (rows : list A) : list A :=
  take (Z.to_nat limit) (drop (Z.to_nat offset) rows).

(** The rowid given to an inserted row. *)
Definition next_id {num} (rows : list (Transaction num)) : Z :=
  1 + foldr Z.max 0 (tx_id <$> rows).

Section Queries.
Context {num : Type}.

(** [select().from(accounts).where(and(eq(id, ..), eq(userId, ..))).get()] *)
Definition select_account_of_user (id userId : Z) (s : Store num)
  : option (Account num) :=
  a ← accounts s !! id;
  if acc_userId a =? userId then Some a else None.

(** [select().from(accounts).where(eq(accounts.id, ..)).get()] *)
Definition select_account (id : Z) (s : Store num) : option (Account num) :=
  accounts s !! id.

(** [update(accounts).set({ balance }).where(eq(accounts.id, ..))] *)
Definition update_balance (id : Z) (balance : num) (s : Store num) : Store num :=
  mkStore
    (alter (fun a => mkAccount (acc_userId a) (acc_accountNumber a)
                       (acc_accountType a) balance (acc_status a)) id
       (accounts s))
    (transactions s).

(** [insert(transactions).values({...})].  The values leave [id] and
    [createdAt] to the database: [createdAt] is assigned at insert, as
    the data model says, and is the time [createdAt] given here. *)
Definition insert_transaction (accountId : Z) (type : string) (amount : num)
    (description status : string) (processedAt createdAt : Z)
    (s : Store num) : Store num :=
  mkStore (accounts s)
    (transactions s ++
       [mkTransaction (next_id (transactions s)) accountId type amount
          description status createdAt processedAt]).

(** [select().from(transactions).where(eq(accountId, ..))
      .orderBy(desc(createdAt)).limit(1).get()] *)
Definition select_latest_transaction (accountId : Z) (s : Store num)
  : option (Transaction num) :=
  head (limit_offset 1 0
          (orderBy_desc tx_createdAt
             (filter (fun t => tx_accountId t = accountId) (transactions s)))).

End Queries.

(** ** Procedures

    A procedure runs against the store and either returns a value or
    throws a [TRPCError]; the store it leaves behind is kept in both
    cases. *)

Inductive TRPCCode := BAD_REQUEST | NOT_FOUND.

Inductive TRPCError :=
| ZodError              (* the input schema rejected the input *)
| InvalidCardNumber     (* "Invalid card number. ..." *)
| AccountNotFound       (* "Account not found" *)
| AccountNotActive.     (* "Account is not active" *)

Definition code (e : TRPCError) : TRPCCode :=
  match e with
  | ZodError => BAD_REQUEST
  | InvalidCardNumber => BAD_REQUEST
  | AccountNotFound => NOT_FOUND
  | AccountNotActive => BAD_REQUEST
  end.

(** The error classes of the specification. *)
Inductive ErrorKind := InvalidInput | NotFound | InvalidState.

Definition kind (e : TRPCError) : ErrorKind :=
  match e with
  | ZodError => InvalidInput
  | InvalidCardNumber => InvalidInput
  | AccountNotFound => NotFound
  | AccountNotActive => InvalidState
  end.

Definition Proc (num A : Type) : Type :=
  Store num -> Store num * (TRPCError + A).

Definition ret {num A} (x : A) : Proc num A := fun s => (s, inr x).
Definition throw {num A} (e : TRPCError) : Proc num A := fun s => (s, inl e).
Definition bind {num A B} (m : Proc num A) (k : A -> Proc num B) : Proc num B :=
  fun s =>
    match m s with
    | (s', inr x) => k x s'
    | (s', inl e) => (s', inl e)
    end.
(** [await] of a query and of a statement *)
Definition query {num A} (q : Store num -> A) : Proc num A :=
  fun s => (s, inr (q s)).
Definition exec {num} (u : Store num -> Store num) : Proc num unit :=
  fun s => (u s, inr tt).

Declare Scope proc_scope.
Delimit Scope proc_scope with proc.
Notation "'let*' x ':=' m 'in' k" := (bind m (fun x => k))
  (at level 10, x name, m at level 100, k at level 200) : proc_scope.
Notation "m ';;' k" := (bind m (fun _ => k))
  (at level 100, k at level 200, right associativity) : proc_scope.

Inductive FundingType := card | bank.

Record FundingSource := mkFundingSource {
  fs_type : FundingType;
  fs_accountNumber : jsstring;
  fs_routingNumber : option jsstring
}.

Record FundInput (num : Type) := mkFundInput {
  fi_accountId : Z;
  fi_amount : num;
  fi_fundingSource : FundingSource
}.
Arguments mkFundInput {num}.
Arguments fi_accountId {num}.
Arguments fi_amount {num}.
Arguments fi_fundingSource {num}.

Record FundResult (num : Type) := mkFundResult {
  fr_transaction : option (Transaction num);
  fr_newBalance : num
}.
Arguments mkFundResult {num}.
Arguments fr_transaction {num}.
Arguments fr_newBalance {num}.

(** What a call sees of its surroundings: the authenticated user, the
    value of [new Date()] and the time the database stamps on a row. *)
Record Env := mkEnv {
  ctx_user_id : Z;
  now : Z;
  db_now : Z
}.

Definition funding_type_name (t : FundingType) : string :=
  match t with card => "card" | bank => "bank" end.

Section Ledger.
Context {num : Type} `{Number num}.
Local Open Scope proc_scope.

(** The [.refine] of the funding source. *)
Definition routing_ok (source : FundingSource) : bool :=
  match fs_type source with
  | bank =>
      match fs_routingNumber source with
      | Some r => re_digits_9 r
      | None => false
      end
  | card => true
  end.

(** The [.input(z.object({...}))] schema of [fundAccount]. *)
Definition fundAccount_schema (input : FundInput num) : bool :=
  num_positive (fi_amount input) && routing_ok (fi_fundingSource input).

Definition fundAccount (env : Env) (input : FundInput num)
  : Proc num (FundResult num) :=
  (if fundAccount_schema input then ret tt else throw ZodError) ;;
  (* [parseFloat(input.amount.toString())] gives the number back *)
  let amount := fi_amount input in
  (match fs_type (fi_fundingSource input) with
   | card =>
       let cardNumber := fs_accountNumber (fi_fundingSource input) in
       if negb (CardValidation.isValidCardNumber cardNumber)
       then throw InvalidCardNumber else ret tt
   | bank => ret tt
   end) ;;
  let* account :=
    query (select_account_of_user (fi_accountId input) (ctx_user_id env)) in
  match account with
  | None => throw AccountNotFound
  | Some account =>
      if negb (String.eqb (acc_status account) "active")
      then throw AccountNotActive
      else
        exec (insert_transaction (fi_accountId input) "deposit" amount
                ("Funding from " ++
                   funding_type_name (fs_type (fi_fundingSource input)))
                "completed" (now env) (db_now env)) ;;
        let* transaction :=
          query (select_latest_transaction (fi_accountId input)) in
        exec (update_balance (fi_accountId input)
                (num_add (acc_balance account) amount)) ;;
        let* updatedAccount := query (select_account (fi_accountId input)) in
        ret (mkFundResult transaction
               (match updatedAccount with
                | Some u => acc_balance u
                | None => num_add (acc_balance account) amount
                end))
  end.

(** *** Transaction history *)

(** A row of the history: the columns of the transaction and the type
    of its account ([None] is [undefined]). *)
Record EnrichedTransaction := mkEnriched {
  e_id : Z;
  e_accountId : Z;
  e_type : string;
  e_amount : num;
  e_description : string;
  e_status : string;
  e_createdAt : Z;
  e_processedAt : Z;
  e_accountType : option string
}.

Record TransactionsInput := mkTransactionsInput {
  ti_accountId : Z;
  ti_limit : option Z;
  ti_offset : option Z
}.

(** The [.input(z.object({...}))] schema of [getTransactions]. *)
Definition getTransactions_schema (input : TransactionsInput) : bool :=
  match ti_limit input with
  | Some l => (1 <=? l) && (l <=? 100)
  | None => true
  end
  && match ti_offset input with
     | Some o => 0 <=? o
     | None => true
     end.

(** [from(transactions).innerJoin(accounts, eq(transactions.accountId,
    accounts.id))] *)
Definition join_accounts (s : Store num)
  : list (Transaction num * Account num) :=
  omap (fun t => a ← accounts s !! tx_accountId t; Some (t, a))
    (transactions s).

(** The [select({...})] projection of the joined row. *)
Definition project (row : Transaction num * Account num)
  : EnrichedTransaction :=
  let (t, a) := row in
  mkEnriched (tx_id t) (tx_accountId t) (tx_type t) (tx_amount t)
    (tx_description t) (tx_status t) (tx_createdAt t) (tx_processedAt t)
    (Some (acc_accountType a)).

Definition select_transactions_joined (accountId limit offset : Z)
    (s : Store num) : list EnrichedTransaction :=
  project <$>
    limit_offset limit offset
      (orderBy_desc (fun row => tx_createdAt row.1)
         (filter (fun row => tx_accountId row.1 = accountId)
            (join_accounts s))).

Definition getTransactions (env : Env) (input : TransactionsInput)
  : Proc num (list EnrichedTransaction) :=
  (if getTransactions_schema input then ret tt else throw ZodError) ;;
  let* account :=
    query (select_account_of_user (ti_accountId input) (ctx_user_id env)) in
  match account with
  | None => throw AccountNotFound
  | Some _ =>
      let limit := default 50 (ti_limit input) in
      let offset := default 0 (ti_offset input) in
      query (select_transactions_joined (ti_accountId input) limit offset)
  end.

(** The earlier [getTransactions]: every row of the account, and one
    lookup of the account for each of them. *)

(** [select().from(transactions).where(eq(accountId, ..))
      .orderBy(desc(createdAt))] *)
Definition select_transactions (accountId : Z) (s : Store num)
  : list (Transaction num) :=
  orderBy_desc tx_createdAt
    (filter (fun t => tx_accountId t = accountId) (transactions s)).

(** [{ ...transaction, accountType: accountDetails?.accountType }] *)
Definition enrich (t : Transaction num) (accountDetails : option (Account num))
  : EnrichedTransaction :=
  mkEnriched (tx_id t) (tx_accountId t) (tx_type t) (tx_amount t)
    (tx_description t) (tx_status t) (tx_createdAt t) (tx_processedAt t)
    (acc_accountType <$> accountDetails).



(** Reading a history page by page: [(limit, 0)], [(limit, limit)], ...
    until a page comes back short. *)
Fixpoint read_pages (fuel : nat) (env : Env) (accountId limit offset : Z)
    (s : Store num) : option (list EnrichedTransaction) :=
  match fuel with
  | O => None
  | S fuel' =>
      match getTransactions env
              (mkTransactionsInput accountId (Some limit) (Some offset)) s with
      | (s', inr page) =>
          if Z.of_nat (length page) <? limit then Some page
          else (fun more => page ++ more) <$>
                 read_pages fuel' env accountId limit (offset + limit) s'
      | (_, inl _) => None
      end
  end.

End Ledger.
Arguments EnrichedTransaction : clear implicits.

(** ** Calls that overlap

    Every [await] of [fundAccount] hands control back to the event loop,
    so the statements of several calls can interleave.  A call is cut at
    its [await]s: [Pc] says which statement comes next and holds the
    local variables that are live there. *)

Inductive Pc (num : Type) :=
| PcSelectAccount
| PcInsert (account : Account num)
| PcSelectLatest (account : Account num)
| PcUpdate (account : Account num) (transaction : option (Transaction num))
| PcRefetch (account : Account num) (transaction : option (Transaction num))
| PcDone (r : TRPCError + FundResult num).
Arguments PcSelectAccount {num}.
Arguments PcInsert {num}.
Arguments PcSelectLatest {num}.
Arguments PcUpdate {num}.
Arguments PcRefetch {num}.
Arguments PcDone {num}.

Record Call (num : Type) := mkCall {
  call_env : Env;
  call_input : FundInput num;
  call_pc : Pc num
}.
Arguments mkCall {num}.
Arguments call_env {num}.
Arguments call_input {num}.
Arguments call_pc {num}.

Section Interleaving.
Context {num : Type} `{Number num}.

(** The part of [fundAccount] before its first [await]. *)
Definition start (input : FundInput num) : Pc num :=
  if fundAccount_schema input then
    match fs_type (fi_fundingSource input) with
    | card =>
        if negb (CardValidation.isValidCardNumber
                   (fs_accountNumber (fi_fundingSource input)))
        then PcDone (inl InvalidCardNumber) else PcSelectAccount
    | bank => PcSelectAccount
    end
  else PcDone (inl ZodError).

(** One statement of [fundAccount], up to the next [await]. *)
Definition step (env : Env) (input : FundInput num) (pc : Pc num)
    (s : Store num) : Store num * Pc num :=
  let accountId := fi_accountId input in
  let amount := fi_amount input in
  match pc with
  | PcSelectAccount =>
      match select_account_of_user accountId (ctx_user_id env) s with
      | None => (s, PcDone (inl AccountNotFound))
      | Some account =>
          if negb (String.eqb (acc_status account) "active")
          then (s, PcDone (inl AccountNotActive))
          else (s, PcInsert account)
      end
  | PcInsert account =>
      (insert_transaction accountId "deposit" amount
         ("Funding from " ++
            funding_type_name (fs_type (fi_fundingSource input)))
         "completed" (now env) (db_now env) s,
       PcSelectLatest account)
  | PcSelectLatest account =>
      (s, PcUpdate account (select_latest_transaction accountId s))
  | PcUpdate account transaction =>
      (update_balance accountId (num_add (acc_balance account) amount) s,
       PcRefetch account transaction)
  | PcRefetch account transaction =>
      (s, PcDone (inr (mkFundResult transaction
                         (match select_account accountId s with
                          | Some u => acc_balance u
                          | None => num_add (acc_balance account) amount
                          end))))
  | PcDone r => (s, PcDone r)
  end.

Definition new_call (env : Env) (input : FundInput num) : Call num :=
  mkCall env input (start input).

Definition step_call (c : Call num) (s : Store num) : Store num * Call num :=
  let (s', pc') := step (call_env c) (call_input c) (call_pc c) s in
  (s', mkCall (call_env c) (call_input c) pc').

(** A schedule names, statement by statement, the call that runs. *)
Fixpoint run_schedule (schedule : list nat) (calls : list (Call num))
    (s : Store num) : Store num * list (Call num) :=
  match schedule with
  | [] => (s, calls)
  | i :: schedule' =>
      match calls !! i with
      | Some c =>
          let (s', c') := step_call c s in
          run_schedule schedule' (<[i := c']> calls) s'
      | None => run_schedule schedule' calls s
      end
  end.

(** A call run alone, statement after statement. *)
Fixpoint run_alone (n : nat) (c : Call num) (s : Store num)
  : Store num * Call num :=
  match n with
  | O => (s, c)
  | S n' => let (s', c') := step_call c s in run_alone n' c' s'
  end.

(** The store after the two writes of a call that goes through. *)
Definition funded (env : Env) (input : FundInput num) (account : Account num)
    (s : Store num) : Store num :=
  update_balance (fi_accountId input)
    (num_add (acc_balance account) (fi_amount input))
    (insert_transaction (fi_accountId input) "deposit" (fi_amount input)
       ("Funding from " ++
          funding_type_name (fs_type (fi_fundingSource input)))
       "completed" (now env) (db_now env) s).

(** The card check of [fundAccount]. *)
Definition card_ok (source : FundingSource) : bool :=
  match fs_type source with
  | card => CardValidation.isValidCardNumber (fs_accountNumber source)
  | bank => true
  end.

(** A call that is past the ownership query still has its account row
    in the store. *)
Definition holds_row (s : Store num) (c : Call num) : Prop :=
  match call_pc c with
  | PcSelectAccount | PcDone _ => True
  | _ => is_Some (accounts s !! fi_accountId (call_input c))
  end.

(** *** Balances and the journal *)

(** The amounts of the completed transactions of an account, added up
    in the order of the journal. *)
Definition sum_completed (accountId : Z) (rows : list (Transaction num)) : num :=
  fold_left
    (fun acc t =>
       if (tx_accountId t =? accountId)
          && String.eqb (tx_status t) "completed"
       then num_add acc (tx_amount t) else acc)
    rows num_zero.

Definition balance_consistent (accountId : Z) (s : Store num) : Prop :=
  forall a, accounts s !! accountId = Some a ->
            acc_balance a = sum_completed accountId (transactions s).

(** Calls made one after the other. *)
Fixpoint fund_all (calls : list (Env * FundInput num)) (s : Store num)
  : Store num * list (TRPCError + FundResult num) :=
  match calls with
  | [] => (s, [])
  | (env, input) :: calls' =>
      let (s', r) := fundAccount env input s in
      let (s'', rs) := fund_all calls' s' in
      (s'', r :: rs)
  end.

Definition succeeded {A} (r : TRPCError + A) : bool :=
  match r with inr _ => true | inl _ => false end.

End Interleaving.

(** ** Amounts as the specification describes them

    A positive decimal with at most two fractional digits, not above the
    ceiling. *)
Definition amount_within_spec (ceiling amount : Q) : bool :=
  negb (Qle_bool amount 0)
  && Qle_bool amount ceiling
  && (Qden (Qred (amount * 100)) =? 1)%positive.

(** ** Sample data

    One user (7) with one fresh checking account (1), and the card
    funding the performance script of the repository sends. *)

Module Sample.
Section Sample.
Context {num : Type} `{Number num}.

Definition account : Account num :=
  mkAccount 7 "1234567890" "checking" num_zero "active".

Definition store : Store num := mkStore {[ 1 := account ]} [].

Definition env : Env := mkEnv 7 1000 1000.

Definition card_funding (amount : num) : FundInput num :=
  mkFundInput 1 amount (mkFundingSource card (js "4242424242424242") None).

(** The same with a card number that fails the checksum. *)
Definition bad_card_funding (amount : num) : FundInput num :=
  mkFundInput 1 amount (mkFundingSource card (js "4242424242424241") None).

(** Three calls made one after the other. *)
Definition three_calls (a b c : num) : list (Env * FundInput num) :=
  [(env, card_funding a); (env, card_funding b); (env, card_funding c)].

(** A journal with five rows of account 1, two pairs of them stamped with
    the same time, and one row of another user's account 2. *)
Definition row (id accountId : Z) (amount : num) (createdAt : Z)
  : Transaction num :=
  mkTransaction id accountId "deposit" amount "Funding from card"
    "completed" createdAt createdAt.

Definition journal_store (amount : num) : Store num :=
  mkStore
    {[ 1 := account;
       2 := mkAccount 8 "0987654321" "savings" num_zero "active" ]}
    [row 1 1 amount 1000; row 2 1 amount 1000; row 3 2 amount 1000;
     row 4 1 amount 1001; row 5 1 amount 1001; row 6 1 amount 1002].

(** Two overlapping calls that take turns, statement by statement. *)
Definition alternate : list nat := [0; 1; 0; 1; 0; 1; 0; 1; 0; 1]%nat.

Definition finished_ok (c : Call num) : bool :=
  match call_pc c with
  | PcDone (inr _) => true
  | _ => false
  end.

End Sample.
End Sample.

(** ** Opening and listing accounts *)

(** [z.enum(["checking", "savings"])] *)
Inductive AccountType := checking | savings.

Definition account_type_name (t : AccountType) : string :=
  match t with checking => "checking" | savings => "savings" end.

Inductive CreateAccountError :=
| AlreadyHasAccount (accountType : AccountType)
    (* CONFLICT, "You already have a ${accountType} account" *)
| CreateAccountFailed.
    (* INTERNAL_SERVER_ERROR, "Failed to create account. Please try again." *)

(** [n.toString()] of an integer. *)
Definition toString (n : Z) : string :=
  NilZero.string_of_int (Z.to_int n).

(** [generateAccountNumber]: [randomInt k] is what the [k]-th call of
    [randomInt(0, 10)] returns, [k] counts the calls made so far, [n]
    is the number of rounds the loop has left. *)
Fixpoint generateAccountNumber_loop (n : nat) (randomInt : nat -> Z)
    (k : nat) (accountNumber : string) : string :=
  match n with
  | O => accountNumber
  | S n' =>
      generateAccountNumber_loop n' randomInt (S k)
        (accountNumber ++ toString (randomInt k))
  end.

Definition generateAccountNumber (randomInt : nat -> Z) (k : nat) : string :=
  generateAccountNumber_loop 10 randomInt k "".

(** [ORDER BY key] (ascending); rows with equal keys keep their scan
    order, as in [orderBy_desc]. *)
Fixpoint insert_asc {A} (key : A -> Z) (x : A) (rows : list A) : list A :=
  match rows with
  | [] => [x]
  | y :: rows' =>
      if key y <? key x then y :: insert_asc key x rows' else x :: rows
  end.

Definition orderBy_asc {A} (key : A -> Z) (rows : list A) : list A :=
  foldr (insert_asc key) [] rows.

(** The rows of a table keyed by [id], in the order of the ids. *)
Definition rows_by_id {A} (table : gmap Z A) : list (Z * A) :=
  orderBy_asc fst (map_to_list table).

(** The id given to an inserted account: one more than the largest. *)
Definition next_account_id {A} (table : gmap Z A) : Z :=
  1 + foldr Z.max 0 ((map_to_list table).*1).

Section Accounts.
Context {num : Type} `{Number num}.

(** [select().from(accounts).where(..)]: the rows with their ids. *)
Definition select_accounts_where (cond : Account num -> bool) (s : Store num)
  : list (Z * Account num) :=
  filter (fun r => cond r.2) (rows_by_id (accounts s)).

(** [insert(accounts).values({...})] *)
Definition insert_account (a : Account num) (s : Store num) : Store num :=
  mkStore (<[next_account_id (accounts s) := a]> (accounts s))
    (transactions s).

(** The [while (!isUnique)] loop of [createAccount], for at most [fuel]
    rounds; it returns the number and the count of [randomInt] calls. *)
Fixpoint unique_account_number (fuel : nat) (randomInt : nat -> Z) (k : nat)
    (s : Store num) : option (string * nat) :=
  match fuel with
  | O => None
  | S fuel' =>
      let accountNumber := generateAccountNumber randomInt k in
      let existing :=
        head (select_accounts_where
                (fun a => String.eqb (acc_accountNumber a) accountNumber) s) in
      match existing with
      | Some _ => unique_account_number fuel' randomInt (k + 10) s
      | None => Some (accountNumber, (k + 10)%nat)
      end
  end.

(** [createAccount]; [None] when the loop has not found a free number
    within [fuel] rounds. *)
Definition createAccount (fuel : nat) (randomInt : nat -> Z) (env : Env)
    (accountType : AccountType) (s : Store num)
  : option (Store num * (CreateAccountError + Z * Account num)) :=
  let existingAccount :=
    head (select_accounts_where
            (fun a => (acc_userId a =? ctx_user_id env)
                      && String.eqb (acc_accountType a)
                           (account_type_name accountType)) s) in
  match existingAccount with
  | Some _ => Some (s, inl (AlreadyHasAccount accountType))
  | None =>
      match unique_account_number fuel randomInt 0 s with
      | None => None
      | Some (accountNumber, _) =>
          let s' :=
            insert_account
              (mkAccount (ctx_user_id env) accountNumber
                 (account_type_name accountType) num_zero "active") s in
          let account :=
            head (select_accounts_where
                    (fun a => String.eqb (acc_accountNumber a) accountNumber)
                    s') in
          match account with
          | None => Some (s', inl CreateAccountFailed)
          | Some account => Some (s', inr account)
          end
      end
  end.

(** [getAccounts] *)
Definition getAccounts (env : Env) (s : Store num) : list (Z * Account num) :=
  select_accounts_where (fun a => acc_userId a =? ctx_user_id env) s.

(** *** Invariants of the accounts table *)

Definition unique_account_numbers (s : Store num) : Prop :=
  forall i j a b,
    accounts s !! i = Some a -> accounts s !! j = Some b ->
    acc_accountNumber a = acc_accountNumber b -> i = j.

Definition one_account_per_type (s : Store num) : Prop :=
  forall i j a b,
    accounts s !! i = Some a -> accounts s !! j = Some b ->
    acc_userId a = acc_userId b -> acc_accountType a = acc_accountType b ->
    i = j.

(** Every journal row belongs to an account of the table. *)
Definition journal_has_accounts (s : Store num) : Prop :=
  forall t, t ∈ transactions s -> is_Some (accounts s !! tx_accountId t).

(** The caller has an account of the type. *)
Definition has_account (env : Env) (accountType : AccountType)
    (s : Store num) : Prop :=
  exists i a,
    accounts s !! i = Some a
    /\ acc_userId a = ctx_user_id env
    /\ acc_accountType a = account_type_name accountType.

(** No account has the number. *)
Definition number_free (accountNumber : string) (s : Store num) : Prop :=
  forall i a, accounts s !! i = Some a ->
              acc_accountNumber a <> accountNumber.

End Accounts.

(** *** Sample draws and accounts *)

Module SampleAccounts.

(** Draws that spell 0123456789 over and over, and draws that first
    spell the number of the sample account. *)
Definition draws (k : nat) : Z := Z.of_nat (k mod 10).
Definition colliding_draws (k : nat) : Z :=
  if (k <? 10)%nat then Z.of_nat (S k mod 10) else Z.of_nat (k mod 10).

Definition savings_account (accountNumber : string) : Account Q :=
  mkAccount 7 accountNumber "savings" 0%Q "active".

Definition fund_savings : FundInput Q :=
  mkFundInput 2 10.5%Q
    (mkFundingSource card (js "4242424242424242") None).


(** A call of user 7 made after every row of the sample journal. *)
Definition later : Env := mkEnv 7 2000 2000.

(** User 7 funds account 1 while user 8 funds account 2. *)
Definition two_owners : list (Env * FundInput Q) :=
  [(Sample.env, Sample.card_funding 10.5%Q);
   (mkEnv 8 1000 1000,
    mkFundInput 2 0.25%Q
      (mkFundingSource bank (js "000123456789") (Some (js "021000021"))))].

End SampleAccounts.

(** ** The earlier [fundAccount]

    The earlier revision of the router reads the created transaction
    back with [.orderBy(transactions.createdAt).limit(1)], in ascending
    order; everything else is as in [fundAccount]. *)

Section EarlierLedger.
Context {num : Type} `{Number num}.
Local Open Scope proc_scope.

(** [select().from(transactions).where(eq(accountId, ..))
      .orderBy(createdAt).limit(1).get()] *)
Definition select_first_transaction (accountId : Z) (s : Store num)
  : option (Transaction num) :=
  head (limit_offset 1 0
          (orderBy_asc tx_createdAt
             (filter (fun t => tx_accountId t = accountId) (transactions s)))).

Definition fundAccount_earlier (env : Env) (input : FundInput num)
  : Proc num (FundResult num) :=
  (if fundAccount_schema input then ret tt else throw ZodError) ;;
  let amount := fi_amount input in
  (match fs_type (fi_fundingSource input) with
   | card =>
       let cardNumber := fs_accountNumber (fi_fundingSource input) in
       if negb (CardValidation.isValidCardNumber cardNumber)
       then throw InvalidCardNumber else ret tt
   | bank => ret tt
   end) ;;
  let* account :=
    query (select_account_of_user (fi_accountId input) (ctx_user_id env)) in
  match account with
  | None => throw AccountNotFound
  | Some account =>
      if negb (String.eqb (acc_status account) "active")
      then throw AccountNotActive
      else
        exec (insert_transaction (fi_accountId input) "deposit" amount
                ("Funding from " ++
                   funding_type_name (fs_type (fi_fundingSource input)))
                "completed" (now env) (db_now env)) ;;
        let* transaction :=
          query (select_first_transaction (fi_accountId input)) in
        exec (update_balance (fi_accountId input)
                (num_add (acc_balance account) amount)) ;;
        let* updatedAccount := query (select_account (fi_accountId input)) in
        ret (mkFundResult transaction
               (match updatedAccount with
                | Some u => acc_balance u
                | None => num_add (acc_balance account) amount
                end))
  end.

(** The row [fundAccount] inserts. *)
Definition deposit_row (env : Env) (input : FundInput num) (s : Store num)
  : Transaction num :=
  mkTransaction (next_id (transactions s)) (fi_accountId input) "deposit"
    (fi_amount input)
    ("Funding from " ++ funding_type_name (fs_type (fi_fundingSource input)))
    "completed" (db_now env) (now env).

(** ** The funding script

    The loop of the script run as [npm run test:funding]: [ITERATIONS] calls of
    [fundAccount], each awaited before the next; a call that throws
    ends the script.  [env i] is what the [i]-th call sees;
    [lastBalanceFromApi] is [None] for [null]. *)
Fixpoint funding_loop (iterations i : nat) (env : nat -> Env)
    (input : FundInput num) (lastBalanceFromApi : option num)
    (s : Store num) : Store num * (TRPCError + option num) :=
  match iterations with
  | O => (s, inr lastBalanceFromApi)
  | S iterations' =>
      match fundAccount (env i) input s with
      | (s', inr result) =>
          funding_loop iterations' (S i) env input
            (Some (fr_newBalance result)) s'
      | (s', inl e) => (s', inl e)
      end
  end.

(** The input the script sends. *)
Definition script_input (accountId : Z) (amount : num) : FundInput num :=
  mkFundInput accountId amount
    (mkFundingSource card (js "4242424242424242") (Some (js ""))).

End EarlierLedger.

(** ** Overlapping calls on different accounts *)

Section Isolation.
Context {num : Type} `{Number num}.

(** The account row with another balance. *)
Definition with_balance (a : Account num) (balance : num) : Account num :=
  mkAccount (acc_userId a) (acc_accountNumber a) (acc_accountType a)
    balance (acc_status a).

(** How far a call has come, seen from the row of its account: [s0] is
    the store when the calls started, [s] the store now. *)
Definition call_progress (s0 s : Store num) (c : Call num) : Prop :=
  let id := fi_accountId (call_input c) in
  let amount := fi_amount (call_input c) in
  match call_pc c with
  | PcSelectAccount => accounts s !! id = accounts s0 !! id
  | PcInsert account | PcSelectLatest account | PcUpdate account _ =>
      accounts s0 !! id = Some account /\ accounts s !! id = Some account
  | PcRefetch account _ =>
      accounts s0 !! id = Some account
      /\ accounts s !! id
         = Some (with_balance account (num_add (acc_balance account) amount))
  | PcDone (inr r) =>
      exists account,
        accounts s0 !! id = Some account
        /\ accounts s !! id
           = Some (with_balance account
                     (num_add (acc_balance account) amount))
        /\ fr_newBalance r = num_add (acc_balance account) amount
  | PcDone (inl _) => accounts s !! id = accounts s0 !! id
  end.

End Isolation.

(** * Properties *)

(** ** Card validation *)

Module CardValidationProps.
Import CardValidation.

Lemma parseInt10_digit (c : N) :
  is_digit c = true -> parseInt10 (Some c) = Some (digit_value c).
Proof. intros Hc. unfold parseInt10. now rewrite Hc. Qed.

(** The loop of [validateLuhn], run on the [n] leftmost characters with
    [k] characters already behind it, adds the terms of the checksum
    from the index [k] on. *)
Lemma luhn_loop_sum (cardNumber : jsstring) :
  forallb is_digit cardNumber = true ->
  forall (n : nat) (sum : Z) (k : nat),
    (n <= length cardNumber)%nat ->
    luhn_loop cardNumber n (Some sum) (Nat.odd k)
    = Some (sum + luhn_sum_from k (rev (map digit_value (take n cardNumber)))).
Proof.
  intros Hdigits. induction n as [|i IH]; intros sum k Hn.
  - simpl. f_equal. lia.
  - destruct (lookup_lt_is_Some_2 cardNumber i) as [c Hc]; [lia|].
    assert (Hd : is_digit c = true).
    { rewrite forallb_forall in Hdigits. apply Hdigits.
      apply list_elem_of_In. eapply list_elem_of_lookup_2; eauto. }
    rewrite (take_S_r _ _ _ Hc), map_app, rev_app_distr. simpl.
    rewrite Hc, (parseInt10_digit _ Hd).
    replace (negb (Nat.odd k)) with (Nat.odd (S k))
      by (rewrite Nat.odd_succ, <- Nat.negb_odd; reflexivity).
    unfold luhn_term.
    destruct (Nat.odd k); simpl; rewrite IH by lia; f_equal;
      replace (digit_value c * 2) with (2 * digit_value c) by lia;
      try destruct (9 <? 2 * digit_value c); lia.
Qed.

Lemma validateLuhn_checksum (cardNumber : jsstring) :
  re_digits_13_19 cardNumber = true ->
  validateLuhn cardNumber = luhn_checksum_passes cardNumber.
Proof.
  unfold re_digits_13_19, validateLuhn, re_digits, luhn_checksum_passes.
  intros Hre. apply andb_true_iff in Hre as [Hlen Hdigits].
  apply andb_true_iff in Hlen as [Hlo Hhi].
  apply Nat.leb_le in Hlo, Hhi.
  rewrite Hdigits.
  replace (length cardNumber =? 0)%nat with false
    by (symmetry; apply Nat.eqb_neq; lia).
  replace (length cardNumber <? 13)%nat with false
    by (symmetry; apply Nat.ltb_ge; lia).
  replace (19 <? length cardNumber)%nat with false
    by (symmetry; apply Nat.ltb_ge; lia).
  simpl.
  change false with (Nat.odd 0) at 1.
  rewrite (luhn_loop_sum _ Hdigits) by lia.
  rewrite firstn_all. reflexivity.
Qed.

(** What [isValidCardNumber] computes, in terms of the cleaned string. *)
Lemma isValidCardNumber_cleaned (raw : jsstring) :
  isValidCardNumber raw
  = re_digits_13_19 (replace_ws_dash raw)
    && luhn_checksum_passes (replace_ws_dash raw).
Proof.
  unfold isValidCardNumber.
  destruct raw as [|c raw].
  - reflexivity.
  - cbn [length Nat.eqb].
    destruct (re_digits_13_19 (replace_ws_dash (c :: raw))) eqn:Hre; simpl.
    + now apply validateLuhn_checksum.
    + reflexivity.
Qed.

Lemma replace_ws_dash_idemp (s : jsstring) :
  replace_ws_dash (replace_ws_dash s) = replace_ws_dash s.
Proof.
  unfold replace_ws_dash. rewrite list_filter_filter.
  apply list_filter_iff. intros c. tauto.
Qed.

Lemma replace_ws_dash_strip (s : jsstring) :
  replace_ws_dash (strip_space_dash s) = replace_ws_dash s.
Proof.
  unfold replace_ws_dash, strip_space_dash. rewrite list_filter_filter.
  apply list_filter_iff. intros c. split; [tauto|].
  intros Hc. split; [exact Hc|].
  unfold is_whitespace in Hc.
  destruct (c =? 32)%N, (is_dash c); simpl in *;
    rewrite ?orb_true_r in *; simpl in *; tauto.
Qed.

(** A digit is neither white space nor a dash, so cleaning leaves a
    string of digits as it is. *)
Lemma replace_ws_dash_digits (s : jsstring) :
  forallb is_digit s = true -> replace_ws_dash s = s.
Proof.
  unfold replace_ws_dash. induction s as [|c s IH]; [reflexivity|].
  cbn [forallb]. intros Hs. apply andb_true_iff in Hs as [Hc Hs].
  rewrite filter_cons_True.
  - now rewrite IH.
  - unfold is_digit in Hc. apply andb_true_iff in Hc as [Hlo Hhi].
    apply N.leb_le in Hlo, Hhi.
    assert (Hws : is_whitespace c = false).
    { unfold is_whitespace.
      repeat match goal with
             | |- context [(?a <=? ?b)%N] =>
                 destruct (N.leb_spec a b)
             | |- context [(?a =? ?b)%N] =>
                 destruct (N.eqb_spec a b)
             end; simpl; try reflexivity; lia. }
    assert (Hdash : is_dash c = false).
    { unfold is_dash. apply N.eqb_neq. lia. }
    now rewrite Hws, Hdash.
Qed.

(** Cleaning removes the characters it is to remove and keeps every
    other character, in place. *)
Lemma replace_ws_dash_cons (c : N) (s : jsstring) :
  replace_ws_dash (c :: s)
  = if is_whitespace c || is_dash c then replace_ws_dash s
    else c :: replace_ws_dash s.
Proof.
  unfold replace_ws_dash.
  destruct (is_whitespace c || is_dash c) eqn:Hc.
  - rewrite filter_cons_False; [reflexivity|]. now rewrite Hc.
  - rewrite filter_cons_True; [reflexivity|]. now rewrite Hc.
Qed.

(** A character that is neither a digit nor white space nor a dash
    survives the cleaning, and the 13-to-19-digits test then fails. *)
Lemma other_character_rejected (raw : jsstring) :
  existsb (fun c => negb (is_digit c || is_whitespace c || is_dash c)) raw
  = true ->
  forallb is_digit (replace_ws_dash raw) = false.
Proof.
  induction raw as [|c raw IH]; [discriminate|].
  cbn [existsb]. rewrite replace_ws_dash_cons. intros Hraw.
  apply orb_true_iff in Hraw as [Hc|Hraw].
  - destruct (is_digit c) eqn:Hd, (is_whitespace c), (is_dash c);
      try discriminate. simpl. now rewrite Hd.
  - specialize (IH Hraw).
    destruct (is_whitespace c || is_dash c); [exact IH|].
    cbn [forallb]. rewrite IH. apply andb_false_r.
Qed.

(** C7. [isValidCardNumber] strips spaces and dashes, answers [false]
    unless what is left is 13 to 19 digits, and otherwise answers
    [true] exactly when the Luhn checksum, as the specification words
    it, passes: digits taken from the right, every second one doubled,
    9 subtracted from a doubled digit above 9, the sum divisible by 10.

    The stripping is stated three times over.  On the code's cleaned
    string: the answer is the length test, the digits test and the
    checksum of [replace_ws_dash raw], and that string has no space
    (nor other white space) and no dash in it, while every other
    character of [raw] is still there.  Without the code's cleaning:
    when the characters of [raw] other than the space U+0020 and the
    dash are all digits, the answer is the length test and the
    checksum of those digits; and a character that is neither a digit
    nor white space nor a dash makes the answer [false].  On samples:
    the number 4242 4242 4242 4242 is accepted with its digits run
    together, grouped by spaces, grouped by dashes and with both, and
    the wrong check digit is refused also when grouped.  The three
    sample numbers of the specification give true, false and false. *)
Theorem isValidCardNumber_luhn :
  (forall raw : jsstring,
     let cleaned := replace_ws_dash raw in
     isValidCardNumber raw
     = (13 <=? length cleaned)%nat && (length cleaned <=? 19)%nat
       && forallb is_digit cleaned
       && luhn_checksum_passes cleaned)
  /\ (forall (raw : jsstring) (c : N),
        c ∈ replace_ws_dash raw
        <-> c ∈ raw /\ is_whitespace c = false /\ c <> 45%N)
  /\ is_whitespace 32 = true
  /\ (forall raw : jsstring,
        let digits := strip_space_dash raw in
        forallb is_digit digits = true ->
        isValidCardNumber raw
        = (13 <=? length digits)%nat && (length digits <=? 19)%nat
          && luhn_checksum_passes digits)
  /\ (forall raw : jsstring,
        existsb (fun c => negb (is_digit c || is_whitespace c || is_dash c))
          raw = true ->
        isValidCardNumber raw = false)
  /\ isValidCardNumber (js "4242424242424242") = true
  /\ isValidCardNumber (js "4242 4242 4242 4242") = true
  /\ isValidCardNumber (js "4242-4242-4242-4242") = true
  /\ isValidCardNumber (js " 4242-4242 4242-4242 ") = true
  /\ isValidCardNumber (js "4242 4242 4242 4241") = false
  /\ isValidCardNumber (js "4242424242424241") = false
  /\ isValidCardNumber (js "123") = false.
Proof.
  split; [|split; [|split; [|split; [|split]]]];
    [| | | | |repeat split; vm_compute; reflexivity].
  - intros raw cleaned. subst cleaned.
    rewrite isValidCardNumber_cleaned. reflexivity.
  - intros raw c. unfold replace_ws_dash. rewrite list_elem_of_filter.
    unfold is_dash. destruct (is_whitespace c); simpl.
    + split; [intros [[] _]|intros (_ & Hws & _); discriminate].
    + destruct (N.eqb_spec c 45); simpl.
      * split; [intros [[] _]|intros (_ & _ & Hne); contradiction].
      * split; [intros [_ Hin]; auto|intros (Hin & _ & _); auto].
  - reflexivity.
  - intros raw digits Hdigits. subst digits.
    rewrite isValidCardNumber_cleaned, <- replace_ws_dash_strip.
    rewrite (replace_ws_dash_digits _ Hdigits).
    unfold re_digits_13_19. rewrite Hdigits, andb_true_r. reflexivity.
  - intros raw Hother. rewrite isValidCardNumber_cleaned.
    unfold re_digits_13_19.
    rewrite (other_character_rejected _ Hother), andb_false_r. reflexivity.
Qed.

Lemma isValidCardNumber_luhn_witness :
  forallb is_digit (strip_space_dash (js "4242 4242-4242 4242")) = true
  /\ isValidCardNumber (js "4242 4242-4242 4242")
     = (13 <=? length (strip_space_dash (js "4242 4242-4242 4242")))%nat
       && (length (strip_space_dash (js "4242 4242-4242 4242")) <=? 19)%nat
       && luhn_checksum_passes
            (strip_space_dash (js "4242 4242-4242 4242"))
  /\ strip_space_dash (js "4242 4242-4242 4242") = js "4242424242424242"
  /\ isValidCardNumber (js "4242 4242/4242 4242") = false.
Proof.
  destruct isValidCardNumber_luhn as (_ & _ & _ & Hstrip & Hother & _).
  split; [vm_compute; reflexivity|].
  split; [apply Hstrip; vm_compute; reflexivity|].
  split; [vm_compute; reflexivity|].
  apply Hother. vm_compute. reflexivity.
Defined.

(** C10. Formatting does not matter: [isValidCardNumber] gives the same
    answer on a string and on the string without its spaces and dashes
    (whether only the space U+0020 or all white space is removed); it
    answers [false] on the empty string and on every string that still
    has a character other than a digit once white space and dashes are
    removed. *)
Theorem isValidCardNumber_formatting :
  (forall s : jsstring,
     isValidCardNumber s = isValidCardNumber (strip_space_dash s))
  /\ (forall s : jsstring,
        isValidCardNumber s = isValidCardNumber (replace_ws_dash s))
  /\ isValidCardNumber [] = false
  /\ (forall s : jsstring,
        forallb is_digit (replace_ws_dash s) = false ->
        isValidCardNumber s = false).
Proof.
  repeat split.
  - intros s. rewrite !isValidCardNumber_cleaned, replace_ws_dash_strip.
    reflexivity.
  - intros s. rewrite !isValidCardNumber_cleaned, replace_ws_dash_idemp.
    reflexivity.
  - intros s Hs. rewrite isValidCardNumber_cleaned.
    unfold re_digits_13_19. rewrite Hs, andb_false_r. reflexivity.
Qed.

Lemma isValidCardNumber_formatting_witness :
  forallb is_digit (replace_ws_dash (js "4242-4242 4242 424x")) = false
  /\ isValidCardNumber (js "4242-4242 4242 424x") = false
  /\ isValidCardNumber (js "4242-4242 4242 4242")
     = isValidCardNumber (strip_space_dash (js "4242-4242 4242 4242")).
Proof.
  split; [vm_compute; reflexivity|].
  split.
  - apply isValidCardNumber_formatting. vm_compute. reflexivity.
  - apply isValidCardNumber_formatting.
Defined.

End CardValidationProps.

(** ** Session validity *)

Module SessionProps.
Import Session.

(** C4. A session is valid exactly when more than the buffer of five
    minutes remains before it expires: exactly five minutes left is
    invalid, one second more is valid, and an expired session is
    invalid. *)
Theorem isValid_buffer (expiresAt now : Z) :
  let remaining := expiresAt - now in
  (isValid expiresAt now = true <-> remaining > 5 * 60 * 1000)
  /\ isValid (now + 5 * 60 * 1000) now = false
  /\ isValid (now + 5 * 60 * 1000 + 1000) now = true
  /\ isValid (now - 1000) now = false
  /\ (remaining <= 0 -> isValid expiresAt now = false).
Proof.
  unfold isValid, expiresIn, bufferMs. cbv zeta.
  repeat split.
  - intros Hv. apply Z.ltb_lt in Hv. lia.
  - intros Hr. apply Z.ltb_lt. lia.
  - apply Z.ltb_ge. lia.
  - apply Z.ltb_lt. lia.
  - apply Z.ltb_ge. lia.
  - intros Hr. apply Z.ltb_ge. lia.
Qed.

Lemma isValid_buffer_witness :
  (1700000000000 - 1700000001000 <= 0)
  /\ isValid 1700000000000 1700000001000 = false.
Proof.
  split; [lia|].
  apply (isValid_buffer 1700000000000 1700000001000). lia.
Defined.

End SessionProps.

(** ** Ordering and paging *)

Section OrderBy.
Context {A : Type} (key : A -> Z).

Lemma insert_desc_perm (x : A) (rows : list A) :
  insert_desc key x rows ≡ₚ x :: rows.
Proof.
  induction rows as [|y rows IH]; simpl; [reflexivity|].
  destruct (key x <? key y); [|reflexivity].
  rewrite IH. apply Permutation_swap.
Qed.

Lemma orderBy_desc_perm (rows : list A) : orderBy_desc key rows ≡ₚ rows.
Proof.
  induction rows as [|x rows IH]; simpl; [reflexivity|].
  rewrite insert_desc_perm. now rewrite IH.
Qed.

Lemma insert_desc_sorted (x : A) (rows : list A) :
  StronglySorted (desc key) rows -> StronglySorted (desc key) (insert_desc key x rows).
Proof.
  induction 1 as [|y rows Hs IH Hy]; simpl.
  - repeat constructor.
  - destruct (key x <? key y) eqn:Hlt.
    + apply Z.ltb_lt in Hlt. constructor; [exact IH|].
      rewrite insert_desc_perm. constructor; [unfold desc; lia|exact Hy].
    + apply Z.ltb_ge in Hlt. constructor; [now constructor|].
      constructor; [exact Hlt|].
      eapply Forall_impl; [exact Hy|]. unfold desc. intros z Hz. lia.
Qed.

Lemma orderBy_desc_sorted (rows : list A) :
  StronglySorted (desc key) (orderBy_desc key rows).
Proof.
  induction rows as [|x rows IH]; simpl; [constructor|].
  now apply insert_desc_sorted.
Qed.

(** Rows sorted in descending order whose keys are all different are
    in strictly descending order. *)
Lemma sorted_nodup_strict (rows : list A) :
  StronglySorted (desc key) rows -> NoDup (key <$> rows) ->
  StronglySorted (strictly_desc key) rows.
Proof.
  induction 1 as [|x rows Hs IH Hx]; intros Hnd; [constructor|].
  rewrite fmap_cons in Hnd. apply NoDup_cons in Hnd as [Hnotin Hnd].
  constructor; [now apply IH|].
  rewrite Forall_forall in Hx |- *. intros z Hz.
  specialize (Hx z Hz). unfold desc in Hx. unfold strictly_desc.
  assert (key z <> key x).
  { intros Heq. apply Hnotin. rewrite <- Heq.
    apply list_elem_of_fmap. eauto. }
  lia.
Qed.

End OrderBy.

(** Ordering commutes with a projection that keeps the key. *)
Lemma orderBy_desc_fmap {A B} (f : A -> B) (key : B -> Z) (rows : list A) :
  orderBy_desc key (f <$> rows) = f <$> orderBy_desc (fun r => key (f r)) rows.
Proof.
  unfold orderBy_desc.
  induction rows as [|x rows IH]; [reflexivity|].
  rewrite fmap_cons. cbn [foldr].
  rewrite IH. generalize (foldr (insert_desc (fun r => key (f r))) [] rows).
  clear IH. intros sorted.
  induction sorted as [|y sorted IH]; [reflexivity|].
  rewrite fmap_cons. cbn [insert_desc].
  destruct (key (f x) <? key (f y)); rewrite ?fmap_cons;
    [now rewrite IH|reflexivity].
Qed.

Lemma limit_offset_fmap {A B} (f : A -> B) (limit offset : Z) (rows : list A) :
  limit_offset limit offset (f <$> rows) = f <$> limit_offset limit offset rows.
Proof. unfold limit_offset. now rewrite fmap_take, fmap_drop. Qed.

(** A page that is not short, followed by the rest, and a short page,
    are both the rows from the offset on. *)
Lemma limit_offset_page {A} (limit offset : Z) (rows : list A) :
  1 <= limit -> 0 <= offset ->
  let page := limit_offset limit offset rows in
  (Z.of_nat (length page) < limit -> page = drop (Z.to_nat offset) rows)
  /\ (limit <= Z.of_nat (length page) ->
      page ++ drop (Z.to_nat (offset + limit)) rows
      = drop (Z.to_nat offset) rows
      /\ (Z.to_nat limit + Z.to_nat offset <= length rows)%nat).
Proof.
  intros Hl Ho page. subst page. unfold limit_offset.
  rewrite length_take, length_drop. split.
  - intros Hshort. apply take_ge. rewrite length_drop. lia.
  - intros Hfull. split; [|lia].
    rewrite Z2Nat.inj_add by lia.
    rewrite <- (drop_drop rows (Z.to_nat limit) (Z.to_nat offset)).
    apply take_drop.
Qed.

(** ** The ledger *)

Section LedgerProps.
Context {num : Type} `{Number num}.

Ltac run_proc :=
  unfold fundAccount, bind, ret, throw, query, exec; cbn beta iota.

(** [fundAccount] case by case. *)
Lemma fundAccount_cases (env : Env) (input : FundInput num) (s : Store num) :
  fundAccount env input s =
  if negb (fundAccount_schema input) then (s, inl ZodError)
  else if negb (card_ok (fi_fundingSource input))
  then (s, inl InvalidCardNumber)
  else
    match select_account_of_user (fi_accountId input) (ctx_user_id env) s with
    | None => (s, inl AccountNotFound)
    | Some account =>
        if negb (String.eqb (acc_status account) "active")
        then (s, inl AccountNotActive)
        else
          let s' := funded env input account s in
          (s', inr (mkFundResult
                      (select_latest_transaction (fi_accountId input)
                         (insert_transaction (fi_accountId input) "deposit"
                            (fi_amount input)
                            ("Funding from " ++
                               funding_type_name
                                 (fs_type (fi_fundingSource input)))
                            "completed" (now env) (db_now env) s))
                      (match select_account (fi_accountId input) s' with
                       | Some u => acc_balance u
                       | None =>
                           num_add (acc_balance account) (fi_amount input)
                       end)))
    end.
Proof.
  run_proc. unfold card_ok, funded.
  destruct (fundAccount_schema input); simpl; [|reflexivity].
  destruct (fs_type (fi_fundingSource input)); simpl.
  - destruct (CardValidation.isValidCardNumber _); simpl; [|reflexivity].
    destruct (select_account_of_user _ _ s) as [account|]; [|reflexivity].
    destruct (String.eqb (acc_status account) "active"); reflexivity.
  - destruct (select_account_of_user _ _ s) as [account|]; [|reflexivity].
    destruct (String.eqb (acc_status account) "active"); reflexivity.
Qed.

Lemma select_account_of_user_Some (id userId : Z) (s : Store num)
    (a : Account num) :
  select_account_of_user id userId s = Some a ->
  accounts s !! id = Some a /\ acc_userId a = userId.
Proof.
  unfold select_account_of_user. intros Hsel.
  destruct (accounts s !! id) as [a'|] eqn:Ha; simpl in Hsel; [|discriminate].
  destruct (acc_userId a' =? userId) eqn:Hu; [|discriminate].
  apply Z.eqb_eq in Hu. now inversion Hsel; subst.
Qed.

(** A call that fails leaves the store as it found it. *)
Lemma fundAccount_failed (env : Env) (input : FundInput num)
    (s s' : Store num) (e : TRPCError) :
  fundAccount env input s = (s', inl e) -> s' = s.
Proof.
  rewrite fundAccount_cases.
  destruct (negb (fundAccount_schema input)); [now inversion 1|].
  destruct (negb (card_ok _)); [now inversion 1|].
  destruct (select_account_of_user _ _ s) as [account|]; [|now inversion 1].
  destruct (negb (String.eqb _ _)); [now inversion 1|].
  cbv zeta. discriminate.
Qed.

(** A call that succeeds found an active account of the caller and
    leaves the store with one more row and the new balance. *)
Lemma fundAccount_succeeded (env : Env) (input : FundInput num)
    (s s' : Store num) (r : FundResult num) :
  fundAccount env input s = (s', inr r) ->
  exists account,
    accounts s !! fi_accountId input = Some account
    /\ acc_userId account = ctx_user_id env
    /\ acc_status account = "active"
    /\ fundAccount_schema input = true
    /\ card_ok (fi_fundingSource input) = true
    /\ s' = funded env input account s
    /\ fr_newBalance r =
       match select_account (fi_accountId input) s' with
       | Some u => acc_balance u
       | None => num_add (acc_balance account) (fi_amount input)
       end.
Proof.
  rewrite fundAccount_cases.
  destruct (fundAccount_schema input); simpl; [|discriminate].
  destruct (card_ok _); simpl; [|discriminate].
  destruct (select_account_of_user _ _ s) as [account|] eqn:Hsel;
    [|discriminate].
  destruct (String.eqb (acc_status account) "active") eqn:Hst; simpl;
    [|discriminate].
  intros Heq. inversion Heq; subst. clear Heq.
  apply select_account_of_user_Some in Hsel as [Ha Hu].
  exists account. apply String.eqb_eq in Hst.
  repeat split; auto.
Qed.

Lemma sum_completed_snoc (accountId : Z) (rows : list (Transaction num))
    (t : Transaction num) :
  sum_completed accountId (rows ++ [t]) =
  if (tx_accountId t =? accountId) && String.eqb (tx_status t) "completed"
  then num_add (sum_completed accountId rows) (tx_amount t)
  else sum_completed accountId rows.
Proof. unfold sum_completed. rewrite fold_left_app. reflexivity. Qed.

Lemma funded_sum (env : Env) (input : FundInput num) (account : Account num)
    (s : Store num) (accountId : Z) :
  sum_completed accountId (transactions (funded env input account s)) =
  if fi_accountId input =? accountId
  then num_add (sum_completed accountId (transactions s)) (fi_amount input)
  else sum_completed accountId (transactions s).
Proof.
  unfold funded, update_balance, insert_transaction. simpl.
  rewrite sum_completed_snoc. simpl.
  destruct (fi_accountId input =? accountId); reflexivity.
Qed.

Lemma funded_lookup (env : Env) (input : FundInput num)
    (account : Account num) (s : Store num) (accountId : Z) :
  accounts (funded env input account s) !! accountId =
  if decide (fi_accountId input = accountId)
  then (fun a => mkAccount (acc_userId a) (acc_accountNumber a)
                   (acc_accountType a)
                   (num_add (acc_balance account) (fi_amount input))
                   (acc_status a)) <$> accounts s !! accountId
  else accounts s !! accountId.
Proof.
  unfold funded, update_balance, insert_transaction. simpl.
  rewrite lookup_alter. destruct (decide _); [subst|]; reflexivity.
Qed.

(** One call keeps the balance of every account equal to the sum of its
    completed transactions. *)
Lemma fundAccount_consistent (env : Env) (input : FundInput num)
    (s s' : Store num) (r : TRPCError + FundResult num) (accountId : Z) :
  balance_consistent accountId s ->
  fundAccount env input s = (s', r) ->
  balance_consistent accountId s'.
Proof.
  intros Hinv Hrun. destruct r as [e|r].
  - apply fundAccount_failed in Hrun. now subst.
  - apply fundAccount_succeeded in Hrun
      as (account & Hacc & _ & _ & _ & _ & -> & _).
    intros a'. rewrite funded_lookup, funded_sum.
    destruct (decide (fi_accountId input = accountId)) as [Heq|Hne].
    + subst accountId. rewrite Z.eqb_refl, Hacc. simpl.
      intros Ha'. inversion Ha'; subst; clear Ha'. simpl.
      f_equal. now apply Hinv.
    + apply Z.eqb_neq in Hne. rewrite Hne. apply Hinv.
Qed.

(** C1. If the stored balance of an account equals the sum of the
    amounts of its completed transactions (added in journal order),
    it still does after any sequence of [fundAccount] calls made one
    after the other, whatever accounts they fund and whether they
    succeed or fail. *)
Theorem balance_consistency (calls : list (Env * FundInput num))
    (s s' : Store num) (results : list (TRPCError + FundResult num))
    (accountId : Z) :
  balance_consistent accountId s ->
  fund_all calls s = (s', results) ->
  balance_consistent accountId s'.
Proof.
  revert s s' results.
  induction calls as [|[env input] calls IH]; intros s s' results Hinv Hrun.
  - simpl in Hrun. now inversion Hrun; subst.
  - simpl in Hrun.
    destruct (fundAccount env input s) as [s1 r] eqn:Hcall.
    destruct (fund_all calls s1) as [s2 rs] eqn:Hrest.
    inversion Hrun; subst; clear Hrun.
    eapply IH; [|exact Hrest].
    eapply fundAccount_consistent; eauto.
Qed.

(** The [newBalance] a successful call returns is the balance the
    store holds for the account once the call has written it; the
    fall-back to the sum computed from the balance read earlier is
    never taken. *)
Lemma fundAccount_newBalance_stored (env : Env) (input : FundInput num)
    (s s' : Store num) (r : FundResult num) :
  fundAccount env input s = (s', inr r) ->
  exists updatedAccount,
    accounts s' !! fi_accountId input = Some updatedAccount
    /\ fr_newBalance r = acc_balance updatedAccount.
Proof.
  intros Hrun.
  apply fundAccount_succeeded in Hrun
    as (account & Hacc & _ & _ & _ & _ & -> & Hnew).
  unfold select_account in Hnew. rewrite funded_lookup in Hnew |- *.
  destruct (decide _) as [_|Hne]; [|congruence].
  rewrite Hacc in Hnew |- *. simpl in *. eauto.
Qed.

(** C8. When [fundAccount] fails - the input schema or the card number
    rejected (InvalidInput), no such account of the caller (NotFound),
    account not active (InvalidState) - the store is what it was: no
    row is added to the journal and no balance changes. *)
Theorem failure_leaves_store (env : Env) (input : FundInput num)
    (s s' : Store num) (e : TRPCError) :
  fundAccount env input s = (s', inl e) ->
  s' = s
  /\ transactions s' = transactions s
  /\ accounts s' = accounts s
  /\ (kind e = InvalidInput \/ kind e = NotFound \/ kind e = InvalidState).
Proof.
  intros Hrun. apply fundAccount_failed in Hrun. subst s'.
  repeat split. destruct e; simpl; auto.
Qed.

(** A positive amount, of any size and with any number of fractional
    digits, is accepted when the source and the account are in order. *)
Lemma positive_amount_accepted (env : Env) (input : FundInput num)
    (s : Store num) (account : Account num) :
  num_positive (fi_amount input) = true ->
  routing_ok (fi_fundingSource input) = true ->
  card_ok (fi_fundingSource input) = true ->
  select_account_of_user (fi_accountId input) (ctx_user_id env) s
  = Some account ->
  acc_status account = "active" ->
  exists r, fundAccount env input s = (funded env input account s, inr r).
Proof.
  intros Hpos Hrouting Hcard Hsel Hactive.
  rewrite fundAccount_cases. unfold fundAccount_schema.
  rewrite Hpos, Hrouting, Hcard, Hsel, Hactive. simpl. eauto.
Qed.

(** C3 as the code has it: an amount that is not positive is rejected
    by the input schema, before anything touches the store. *)
Theorem nonpositive_amount_rejected (env : Env) (input : FundInput num)
    (s : Store num) :
  num_positive (fi_amount input) = false ->
  fundAccount env input s = (s, inl ZodError)
  /\ kind ZodError = InvalidInput.
Proof.
  intros Hpos. split; [|reflexivity].
  rewrite fundAccount_cases. unfold fundAccount_schema.
  now rewrite Hpos.
Qed.

(** A call run alone, statement by statement, is [fundAccount]. *)
Lemma run_alone_fundAccount (env : Env) (input : FundInput num)
    (s : Store num) :
  run_alone 5 (new_call env input) s =
  let (s', r) := fundAccount env input s in
  (s', mkCall env input (PcDone r)).
Proof.
  rewrite fundAccount_cases. unfold new_call, start, card_ok.
  destruct (fundAccount_schema input); simpl; [|reflexivity].
  assert (Hrest :
    run_alone 5 (mkCall env input PcSelectAccount) s =
    let (s', r) :=
      match select_account_of_user (fi_accountId input) (ctx_user_id env) s
      with
      | None => (s, inl AccountNotFound)
      | Some account =>
          if negb (String.eqb (acc_status account) "active")
          then (s, inl AccountNotActive)
          else
            (funded env input account s,
             inr (mkFundResult
                    (select_latest_transaction (fi_accountId input)
                       (insert_transaction (fi_accountId input) "deposit"
                          (fi_amount input)
                          ("Funding from " ++
                             funding_type_name
                               (fs_type (fi_fundingSource input)))
                          "completed" (now env) (db_now env) s))
                    (match select_account (fi_accountId input)
                             (funded env input account s) with
                     | Some u => acc_balance u
                     | None =>
                         num_add (acc_balance account) (fi_amount input)
                     end)))
      end in
    (s', mkCall env input (PcDone r))).
  { unfold run_alone, step_call, step. simpl.
    destruct (select_account_of_user _ _ s) as [account|]; [|reflexivity].
    destruct (String.eqb (acc_status account) "active"); reflexivity. }
  destruct (fs_type (fi_fundingSource input)); simpl.
  - destruct (CardValidation.isValidCardNumber _); simpl;
      [exact Hrest|reflexivity].
  - exact Hrest.
Qed.

(** C2 on the code: two overlapping calls of amount [A] on a fresh
    account, taking turns at every [await], both succeed and leave two
    journal rows, but the stored balance is [0 + A]: each call wrote the
    balance it had read before the other one wrote. *)
Theorem overlapping_calls_lose_update (A : num) :
  num_positive A = true ->
  let c := new_call Sample.env (Sample.card_funding A) in
  let (s', calls') := run_schedule Sample.alternate [c; c] Sample.store in
  forallb Sample.finished_ok calls' = true
  /\ length (transactions s') = 2%nat
  /\ acc_balance <$> accounts s' !! 1 = Some (num_add num_zero A).
Proof.
  intros HA. unfold new_call, start, fundAccount_schema. simpl.
  rewrite HA. vm_compute. repeat split.
Qed.

(** *** Overlapping calls *)

(** No statement of [fundAccount] adds or removes an account row. *)
Lemma step_rows (env : Env) (input : FundInput num) (pc : Pc num)
    (s : Store num) (id : Z) :
  is_Some (accounts (step env input pc s).1 !! id)
  <-> is_Some (accounts s !! id).
Proof.
  destruct pc; simpl; try reflexivity.
  - destruct (select_account_of_user _ _ s) as [account|]; [|reflexivity].
    destruct (negb _); reflexivity.
  - rewrite lookup_alter. destruct (decide _); [|reflexivity].
    subst. rewrite !is_Some_alt. destruct (accounts s !! _); reflexivity.
Qed.

Lemma step_call_rows (c : Call num) (s : Store num) (id : Z) :
  is_Some (accounts (step_call c s).1 !! id) <-> is_Some (accounts s !! id).
Proof.
  unfold step_call.
  pose proof (step_rows (call_env c) (call_input c) (call_pc c) s id) as Hs.
  destruct (step _ _ _ s). exact Hs.
Qed.

Lemma step_call_holds_other (c c' : Call num) (s : Store num) :
  holds_row s c' -> holds_row (step_call c s).1 c'.
Proof.
  unfold holds_row. destruct (call_pc c'); try exact id;
    intros Hrow; now apply step_call_rows.
Qed.

Lemma step_call_holds (c : Call num) (s : Store num) :
  holds_row s c -> holds_row (step_call c s).1 (step_call c s).2.
Proof.
  intros Hc. unfold holds_row in *.
  pose proof (step_call_rows c s (fi_accountId (call_input c))) as Hrows.
  unfold step_call in *.
  destruct c as [env input pc]. cbn [call_pc call_env call_input] in *.
  destruct pc; simpl in *; try tauto.
  destruct (select_account_of_user _ _ s) as [account|] eqn:Hsel;
    [|exact I].
  apply select_account_of_user_Some in Hsel as [Ha _].
  destruct (negb _); simpl; [exact I|]. now rewrite Ha.
Qed.

Lemma run_schedule_holds (schedule : list nat) (calls : list (Call num))
    (s : Store num) :
  Forall (holds_row s) calls ->
  Forall (holds_row (run_schedule schedule calls s).1)
    (run_schedule schedule calls s).2.
Proof.
  revert calls s.
  induction schedule as [|i schedule IH]; intros calls s Hall; [exact Hall|].
  cbn [run_schedule].
  destruct (calls !! i) as [c|] eqn:Hi; [|now apply IH].
  pose proof (step_call_holds c s) as Hown.
  assert (Hothers : Forall (holds_row (step_call c s).1) calls).
  { eapply Forall_impl; [exact Hall|]. intros c'. apply step_call_holds_other. }
  destruct (step_call c s) as [s' c']. apply IH. simpl in *.
  apply Forall_insert; [exact Hothers|].
  apply Hown. rewrite Forall_forall in Hall. apply Hall.
  eapply list_elem_of_lookup_2; eauto.
Qed.

(** In every interleaving of [fundAccount] calls, a call that comes to
    its last statement returns the balance the store holds at that
    moment, whatever the call has read before. *)
Lemma refetch_stored_balance (schedule : list nat)
    (inputs : list (Env * FundInput num)) (s : Store num)
    (c : Call num) (account : Account num)
    (transaction : option (Transaction num)) :
  let run := run_schedule schedule
               ((fun i => new_call i.1 i.2) <$> inputs) s in
  c ∈ run.2 ->
  call_pc c = PcRefetch account transaction ->
  exists u,
    accounts run.1 !! fi_accountId (call_input c) = Some u
    /\ call_pc (step_call c run.1).2
       = PcDone (inr (mkFundResult transaction (acc_balance u))).
Proof.
  intros run Hc Hpc.
  assert (Hall : Forall (holds_row run.1) run.2).
  { apply run_schedule_holds. apply Forall_fmap, Forall_forall.
    intros [env input] _. unfold holds_row, new_call, start. simpl.
    destruct (fundAccount_schema input); [|exact I].
    destruct (fs_type _); [destruct (negb _)|]; exact I. }
  rewrite Forall_forall in Hall. specialize (Hall c Hc).
  unfold holds_row in Hall. rewrite Hpc in Hall. destruct Hall as [u Hu].
  exists u. split; [exact Hu|].
  unfold step_call. rewrite Hpc. simpl. unfold select_account.
  now rewrite Hu.
Qed.

(** C5. The [newBalance] of a successful [fundAccount] is the balance
    the store holds for the account, read back after the call's update,
    and not the sum [account.balance + amount] the call has computed
    from the row it read before the insert.

    For a call that runs alone the two are the same number, so the
    statement has four parts.  A call run alone returns the balance
    found in the store it leaves.  Run alone, the statements of a call,
    cut at its [await]s, are [fundAccount].  In every interleaving of
    such calls the last statement of a call returns the balance the
    store holds at that moment, whatever row the call has read before:
    the fall-back of the [??] is never taken.  And the two values
    differ: when a call of [a] and a call of [b] on the fresh sample
    account take turns, the first call has read the balance 0 and has
    computed [0 + a], the second call writes [0 + b] before the first
    one reads the row back, and the first call returns [0 + b], the
    balance then stored. *)
Theorem newBalance_is_persisted :
  (forall (env : Env) (input : FundInput num) (s s' : Store num)
          (r : FundResult num),
     fundAccount env input s = (s', inr r) ->
     exists updatedAccount,
       accounts s' !! fi_accountId input = Some updatedAccount
       /\ fr_newBalance r = acc_balance updatedAccount)
  /\ (forall (env : Env) (input : FundInput num) (s : Store num),
        run_alone 5 (new_call env input) s
        = let (s', r) := fundAccount env input s in
          (s', mkCall env input (PcDone r)))
  /\ (forall (schedule : list nat) (inputs : list (Env * FundInput num))
             (s : Store num) (c : Call num) (account : Account num)
             (transaction : option (Transaction num)),
        let run := run_schedule schedule
                     ((fun i => new_call i.1 i.2) <$> inputs) s in
        c ∈ run.2 ->
        call_pc c = PcRefetch account transaction ->
        exists u,
          accounts run.1 !! fi_accountId (call_input c) = Some u
          /\ call_pc (step_call c run.1).2
             = PcDone (inr (mkFundResult transaction (acc_balance u))))
  /\ (forall a b : num,
        num_positive a = true ->
        num_positive b = true ->
        let first := new_call Sample.env (Sample.card_funding a) in
        let second := new_call Sample.env (Sample.card_funding b) in
        let before := run_schedule (take 8 Sample.alternate) [first; second]
                        Sample.store in
        let run := run_schedule Sample.alternate [first; second]
                     Sample.store in
        exists (account : Account num) (t : option (Transaction num))
               (r : FundResult num),
          call_pc <$> before.2 !! 0%nat = Some (PcRefetch account t)
          /\ acc_balance account = num_zero
          /\ acc_balance <$> accounts before.1 !! 1 = Some (num_add num_zero b)
          /\ call_pc <$> run.2 !! 0%nat = Some (PcDone (inr r))
          /\ fr_newBalance r = num_add num_zero b).
Proof.
  split; [exact fundAccount_newBalance_stored|].
  split; [exact run_alone_fundAccount|].
  split; [exact refetch_stored_balance|].
  intros a b Ha Hb. unfold new_call, start, fundAccount_schema. simpl.
  rewrite Ha, Hb. vm_compute. eauto 10.
Qed.

End LedgerProps.

(** ** Transaction history *)

Section HistoryProps.
Context {num : Type}.

(** The rows of an account, newest first, each with the type of the
    account [a]. *)
Local Abbreviation history a accountId s :=
  ((fun t => enrich t (Some a)) <$> select_transactions (num := num) accountId s).

Lemma join_filter (s : Store num) (accountId : Z) (a : Account num) :
  accounts s !! accountId = Some a ->
  filter (fun row => tx_accountId row.1 = accountId) (join_accounts s)
  = (fun t => (t, a)) <$>
      filter (fun t => tx_accountId t = accountId) (transactions s).
Proof.
  intros Ha. unfold join_accounts.
  induction (transactions s) as [|t rows IH]; [reflexivity|].
  cbn [omap list_omap].
  destruct (decide (tx_accountId t = accountId)) as [Heq|Hne].
  - rewrite (filter_cons_True (fun t => tx_accountId t = accountId)) by done.
    rewrite fmap_cons, Heq, Ha. simpl.
    rewrite filter_cons_True by (simpl; congruence).
    now rewrite IH.
  - rewrite (filter_cons_False (fun t => tx_accountId t = accountId)) by done.
    destruct (accounts s !! tx_accountId t); simpl; [|exact IH].
    rewrite filter_cons_False by done. exact IH.
Qed.

Lemma select_transactions_joined_page (s : Store num) (accountId : Z)
    (a : Account num) (limit offset : Z) :
  accounts s !! accountId = Some a ->
  select_transactions_joined accountId limit offset s
  = limit_offset limit offset (history a accountId s).
Proof.
  intros Ha. unfold select_transactions_joined, select_transactions.
  rewrite (join_filter _ _ _ Ha).
  rewrite (orderBy_desc_fmap (fun t => (t, a)) (fun row => tx_createdAt row.1)).
  rewrite limit_offset_fmap, <- list_fmap_compose. simpl.
  rewrite limit_offset_fmap. reflexivity.
Qed.

Lemma getTransactions_page (env : Env) (input : TransactionsInput)
    (s : Store num) (a : Account num) :
  getTransactions_schema input = true ->
  select_account_of_user (ti_accountId input) (ctx_user_id env) s = Some a ->
  getTransactions env input s
  = (s, inr (limit_offset (default 50 (ti_limit input))
               (default 0 (ti_offset input))
               (history a (ti_accountId input) s))).
Proof.
  intros Hschema Hsel. unfold getTransactions, bind, ret, throw, query.
  rewrite Hschema, Hsel. cbv zeta.
  apply select_account_of_user_Some in Hsel as [Ha _].
  now rewrite (select_transactions_joined_page _ _ _ _ _ Ha).
Qed.







Lemma history_length (s : Store num) (accountId : Z) (a : Account num) :
  (length (history a accountId s) <= length (transactions s))%nat.
Proof.
  rewrite length_fmap. unfold select_transactions.
  rewrite orderBy_desc_perm. apply length_filter.
Qed.

(** With fuel for one request more than there are rows left, the pages
    from an offset on are the history from that offset on. *)
Lemma read_pages_from (env : Env) (accountId limit : Z) (s : Store num)
    (a : Account num) :
  select_account_of_user accountId (ctx_user_id env) s = Some a ->
  1 <= limit <= 100 ->
  forall (fuel : nat) (offset : Z),
    0 <= offset ->
    (length (history a accountId s) - Z.to_nat offset < fuel)%nat ->
    read_pages fuel env accountId limit offset s
    = Some (drop (Z.to_nat offset) (history a accountId s)).
Proof.
  intros Hsel Hlimit.
  induction fuel as [|fuel IH]; intros offset Hoffset Hfuel; [lia|].
  cbn [read_pages].
  rewrite (getTransactions_page env _ s a); cycle 1.
  { unfold getTransactions_schema. simpl.
    apply andb_true_iff. split; [apply andb_true_iff; split|];
      apply Z.leb_le; lia. }
  { exact Hsel. }
  simpl.
  destruct (limit_offset_page limit offset (history a accountId s))
    as [Hshort Hfull]; [lia..|]. simpl in Hshort, Hfull.
  destruct (Z.of_nat (length (limit_offset limit offset
                                (history a accountId s))) <? limit) eqn:Hlen.
  - apply Z.ltb_lt in Hlen. now rewrite Hshort.
  - apply Z.ltb_ge in Hlen. destruct (Hfull Hlen) as [Hcat Hrows].
    rewrite IH by lia. simpl. now rewrite Hcat.
Qed.

(** C6. For an account of the caller and a limit from 1 to 100, asking
    for the pages [(limit, 0)], [(limit, limit)], ... until one comes
    back short ends (after at most one request more than the journal
    has rows) and the pages put together hold every row of the account
    once and no other row, newest first; rows with equal [createdAt]
    are allowed, and when all [createdAt] differ the order is strictly
    descending. *)
Theorem pages_reproduce_history (env : Env) (accountId limit : Z)
    (s : Store num) (a : Account num) (fuel : nat) :
  select_account_of_user accountId (ctx_user_id env) s = Some a ->
  1 <= limit <= 100 ->
  (length (transactions s) < fuel)%nat ->
  exists pages,
    read_pages fuel env accountId limit 0 s = Some pages
    /\ pages ≡ₚ (fun t => enrich t (Some a)) <$>
                 filter (fun t => tx_accountId t = accountId) (transactions s)
    /\ StronglySorted (desc e_createdAt) pages
    /\ (NoDup (tx_createdAt <$>
                 filter (fun t => tx_accountId t = accountId)
                   (transactions s)) ->
        StronglySorted (strictly_desc e_createdAt) pages).
Proof.
  intros Hsel Hlimit Hfuel.
  exists (history a accountId s).
  assert (Hperm : history a accountId s ≡ₚ
            (fun t => enrich t (Some a)) <$>
              filter (fun t => tx_accountId t = accountId) (transactions s)).
  { unfold select_transactions. now rewrite orderBy_desc_perm. }
  assert (Hsorted : StronglySorted (desc e_createdAt) (history a accountId s)).
  { apply (StronglySorted_fmap _ (desc tx_createdAt)).
    - intros x y Hxy. exact Hxy.
    - apply orderBy_desc_sorted. }
  repeat split; [|exact Hperm|exact Hsorted|].
  - rewrite (read_pages_from env accountId limit s a Hsel Hlimit fuel 0);
      [reflexivity|lia|].
    pose proof (history_length s accountId a). lia.
  - intros Hnodup. apply sorted_nodup_strict; [exact Hsorted|].
    assert (Hkeys : e_createdAt <$> history a accountId s ≡ₚ
              tx_createdAt <$>
                filter (fun t => tx_accountId t = accountId) (transactions s)).
    { rewrite Hperm, <- list_fmap_compose. reflexivity. }
    now rewrite Hkeys.
Qed.

End HistoryProps.

(** ** The ledger on exact decimals *)

Module DecimalLedger.

Lemma overlapping_calls_lose_update_witness :
  num_positive (10.5%Q) = true
  /\ (let c := new_call Sample.env (Sample.card_funding 10.5%Q) in
      let (s', calls') := run_schedule Sample.alternate [c; c] Sample.store in
      forallb Sample.finished_ok calls' = true
      /\ length (transactions s') = 2%nat
      /\ acc_balance <$> accounts s' !! 1 = Some (num_add num_zero 10.5%Q)).
Proof.
  split; [reflexivity|].
  apply (overlapping_calls_lose_update 10.5%Q). reflexivity.
Defined.

(** On decimals the balance left by the two overlapping calls of 10.50
    is 10.50, not 21. *)
Lemma lost_update_decimal :
  (let c := new_call Sample.env (Sample.card_funding 10.5%Q) in
   acc_balance <$>
     accounts (run_schedule Sample.alternate [c; c] Sample.store).1 !! 1)
  = Some 10.5%Q
  /\ ~ (10.5 == 2 * 10.5)%Q.
Proof.
  split; [vm_compute; reflexivity|].
  intros Heq. vm_compute in Heq. discriminate.
Qed.

(** C3 fails on the code: an amount above the ceiling of 10,000 and an
    amount with three fractional digits are both outside what the
    specification allows, and [fundAccount] accepts both and writes the
    journal row. *)
Lemma out_of_range_amounts_accepted :
  amount_within_spec 10000 10000.01%Q = false
  /\ succeeded (fundAccount Sample.env (Sample.card_funding 10000.01%Q)
                  Sample.store).2 = true
  /\ length (transactions
               (fundAccount Sample.env (Sample.card_funding 10000.01%Q)
                  Sample.store).1) = 1%nat
  /\ amount_within_spec 10000 1.234%Q = false
  /\ succeeded (fundAccount Sample.env (Sample.card_funding 1.234%Q)
                  Sample.store).2 = true
  /\ length (transactions
               (fundAccount Sample.env (Sample.card_funding 1.234%Q)
                  Sample.store).1) = 1%nat.
Proof. repeat split; vm_compute; reflexivity. Qed.

Lemma nonpositive_amount_rejected_witness :
  num_positive (-5)%Q = false
  /\ fundAccount Sample.env (Sample.card_funding (-5)%Q) Sample.store
     = (Sample.store, inl ZodError)
  /\ kind ZodError = InvalidInput.
Proof.
  split; [reflexivity|].
  apply (nonpositive_amount_rejected Sample.env
           (Sample.card_funding (-5)%Q) Sample.store).
  reflexivity.
Defined.

Lemma balance_consistency_witness :
  balance_consistent 1 (Sample.store (num := Q))
  /\ balance_consistent 1
       (fund_all (Sample.three_calls 10.5 (-1) 0.25)%Q Sample.store).1.
Proof.
  assert (Hinit : balance_consistent 1 (Sample.store (num := Q))).
  { intros a Ha. vm_compute in Ha. inversion Ha. reflexivity. }
  split; [exact Hinit|].
  apply (balance_consistency (Sample.three_calls 10.5 (-1) 0.25)%Q
           Sample.store _
           (fund_all (Sample.three_calls 10.5 (-1) 0.25)%Q Sample.store).2
           1 Hinit).
  apply surjective_pairing.
Defined.

Lemma newBalance_is_persisted_witness :
  let run := fundAccount Sample.env (Sample.card_funding 10.5%Q)
               Sample.store in
  let inputs := [(Sample.env, Sample.card_funding 10.5%Q);
                 (Sample.env, Sample.card_funding 0.25%Q)] in
  let calls := (fun i => new_call i.1 i.2) <$> inputs in
  let before := run_schedule (take 8 Sample.alternate) calls Sample.store in
  let overlapping := run_schedule Sample.alternate calls Sample.store in
  (run.2 = inr (mkFundResult
                  (Some (mkTransaction 1 1 "deposit" 10.5%Q
                           "Funding from card" "completed" 1000 1000))
                  10.5%Q)
   /\ exists updatedAccount,
        accounts run.1 !! 1 = Some updatedAccount
        /\ 10.5%Q = acc_balance updatedAccount)
  /\ (exists c t u,
        before.2 !! 0%nat = Some c
        /\ call_pc c = PcRefetch Sample.account t
        /\ accounts before.1 !! 1 = Some u
        /\ acc_balance u = (0 + 0.25)%Q
        /\ call_pc (step_call c before.1).2
           = PcDone (inr (mkFundResult t (acc_balance u))))
  /\ exists r,
       call_pc <$> overlapping.2 !! 0%nat = Some (PcDone (inr r))
       /\ fr_newBalance r = (0 + 0.25)%Q
       /\ ~ (fr_newBalance r == 0 + 10.5)%Q.
Proof.
  intros run inputs calls before overlapping.
  destruct (newBalance_is_persisted (num := Q))
    as (Halone & _ & Hrefetch & Hturns).
  split; [|split].
  - split; [vm_compute; reflexivity|].
    apply (Halone Sample.env (Sample.card_funding 10.5%Q) Sample.store _
             (mkFundResult
                (Some (mkTransaction 1 1 "deposit" 10.5%Q
                         "Funding from card" "completed" 1000 1000))
                10.5%Q)).
    vm_compute. reflexivity.
  - destruct (before.2 !! 0%nat) as [c|] eqn:Hlook;
      [|vm_compute in Hlook; discriminate].
    assert (Hc : exists t,
               call_pc c = PcRefetch Sample.account t
               /\ fi_accountId (call_input c) = 1).
    { vm_compute in Hlook. inversion Hlook. subst c.
      eexists. split; reflexivity. }
    destruct Hc as (t & Hpc & Hid).
    destruct (Hrefetch (take 8 Sample.alternate) inputs Sample.store c
                Sample.account t) as (u & Hu & Hstep).
    + eapply list_elem_of_lookup_2. exact Hlook.
    + exact Hpc.
    + rewrite Hid in Hu. exists c, t, u.
      repeat split; [exact Hpc|exact Hu| |exact Hstep].
      change (accounts before.1 !! 1 = Some u) in Hu.
      vm_compute in Hu. inversion Hu. reflexivity.
  - destruct (Hturns 10.5%Q 0.25%Q eq_refl eq_refl)
      as (account & t & r & _ & _ & _ & Hdone & Hnew).
    exists r. split; [exact Hdone|]. split; [exact Hnew|].
    rewrite Hnew. intros Heq. vm_compute in Heq. discriminate.
Defined.

Lemma failure_leaves_store_witness :
  fundAccount Sample.env (Sample.bad_card_funding 10.5%Q) Sample.store
  = (Sample.store, inl InvalidCardNumber)
  /\ transactions (Sample.store (num := Q)) = [].
Proof.
  assert (Hrun :
    fundAccount Sample.env (Sample.bad_card_funding 10.5%Q) Sample.store
    = (Sample.store, inl InvalidCardNumber)).
  { vm_compute. reflexivity. }
  split; [exact Hrun|].
  destruct (failure_leaves_store _ _ _ _ _ Hrun) as (_ & Htx & _).
  exact Htx.
Defined.

Lemma pages_reproduce_history_witness :
  select_account_of_user 1 (ctx_user_id Sample.env)
    (Sample.journal_store 10.5%Q) = Some Sample.account
  /\ exists pages,
       read_pages 7 Sample.env 1 2 0 (Sample.journal_store 10.5%Q)
       = Some pages
       /\ pages ≡ₚ (fun t => enrich t (Some Sample.account)) <$>
                    filter (fun t => tx_accountId t = 1)
                      (transactions (Sample.journal_store 10.5%Q))
       /\ StronglySorted (desc e_createdAt) pages.
Proof.
  assert (Hsel :
    select_account_of_user 1 (ctx_user_id Sample.env)
      (Sample.journal_store 10.5%Q) = Some Sample.account).
  { vm_compute. reflexivity. }
  split; [exact Hsel|].
  destruct (pages_reproduce_history Sample.env 1 2
              (Sample.journal_store 10.5%Q) Sample.account 7 Hsel)
    as (pages & Hread & Hperm & Hsorted & _).
  - lia.
  - simpl. lia.
  - exists pages. auto.
Defined.

(** The three pages of the sample journal at limit 2, by row id; the
    third page is short. *)
Example sample_pages :
  fmap (M := list) (@e_id Q) <$>
    read_pages 7 Sample.env 1 2 0 (Sample.journal_store 10.5%Q)
  = Some [6; 4; 5; 1; 2]
  /\ match (getTransactions Sample.env
              (mkTransactionsInput 1 (Some 2) (Some 4))
              (Sample.journal_store 10.5%Q)).2 with
     | inr page => @e_id Q <$> page
     | inl _ => []
     end = [2].
Proof. split; vm_compute; reflexivity. Qed.


End DecimalLedger.


(** ** Opening and listing accounts *)

Section ListHelpers.
Context {A : Type}.

Lemma insert_asc_perm (key : A -> Z) (x : A) (rows : list A) :
  insert_asc key x rows ≡ₚ x :: rows.
Proof.
  induction rows as [|y rows IH]; simpl; [reflexivity|].
  destruct (key y <? key x); [|reflexivity].
  rewrite IH. apply Permutation_swap.
Qed.

Lemma orderBy_asc_perm (key : A -> Z) (rows : list A) :
  orderBy_asc key rows ≡ₚ rows.
Proof.
  induction rows as [|x rows IH]; simpl; [reflexivity|].
  rewrite insert_asc_perm. now rewrite IH.
Qed.

Lemma insert_asc_sorted (key : A -> Z) (x : A) (rows : list A) :
  StronglySorted (fun a b => key a <= key b) rows ->
  StronglySorted (fun a b => key a <= key b) (insert_asc key x rows).
Proof.
  induction 1 as [|y rows Hs IH Hy]; simpl.
  - repeat constructor.
  - destruct (key y <? key x) eqn:Hlt.
    + apply Z.ltb_lt in Hlt. constructor; [exact IH|].
      rewrite insert_asc_perm. constructor; [lia|exact Hy].
    + apply Z.ltb_ge in Hlt. constructor; [now constructor|].
      constructor; [exact Hlt|].
      eapply Forall_impl; [exact Hy|]. simpl. intros z Hz. lia.
Qed.

Lemma orderBy_asc_sorted (key : A -> Z) (rows : list A) :
  StronglySorted (fun a b => key a <= key b) (orderBy_asc key rows).
Proof.
  induction rows as [|x rows IH]; simpl; [constructor|].
  now apply insert_asc_sorted.
Qed.

(** [.get()] of a filtered query. *)
Lemma head_filter_None (P : A -> bool) (rows : list A) :
  head (filter (fun r => P r) rows) = None <->
  forall r, r ∈ rows -> P r = false.
Proof.
  rewrite head_None. split.
  - intros Hnil r Hr. destruct (P r) eqn:HP; [|reflexivity].
    assert (Hin : r ∈ filter (fun r => P r) rows).
    { apply list_elem_of_filter. split; [now rewrite HP|exact Hr]. }
    rewrite Hnil in Hin. now apply not_elem_of_nil in Hin.
  - intros Hall. induction rows as [|x rows IH]; [reflexivity|].
    rewrite filter_cons_False.
    + apply IH. intros r Hr. apply Hall. now right.
    + rewrite (Hall x); [exact id|]. now left.
Qed.

Lemma head_filter_Some (P : A -> bool) (rows : list A) (r : A) :
  head (filter (fun r => P r) rows) = Some r -> r ∈ rows /\ P r = true.
Proof.
  intros Hhead. apply head_Some_elem_of in Hhead.
  apply list_elem_of_filter in Hhead as [HP Hr].
  split; [exact Hr|]. now destruct (P r).
Qed.

Lemma sorted_filter (R : A -> A -> Prop) (P : A -> Prop)
    `{!forall x, Decision (P x)} (rows : list A) :
  StronglySorted R rows -> StronglySorted R (filter P rows).
Proof.
  induction 1 as [|x rows Hs IH Hx]; [constructor|].
  destruct (decide (P x)) as [HP|HP].
  - rewrite filter_cons_True by exact HP. constructor; [exact IH|].
    rewrite Forall_forall in Hx |- *. intros y Hy.
    apply list_elem_of_filter in Hy as [_ Hy]. now apply Hx.
  - now rewrite filter_cons_False by exact HP.
Qed.

Lemma max_bound (l : list Z) (x : Z) : x ∈ l -> x <= foldr Z.max 0 l.
Proof.
  induction 1 as [x l|x y l Hin IH]; simpl; lia.
Qed.

End ListHelpers.

Lemma elem_of_rows_by_id {A} (table : gmap Z A) (i : Z) (a : A) :
  (i, a) ∈ rows_by_id table <-> table !! i = Some a.
Proof.
  unfold rows_by_id. rewrite orderBy_asc_perm. apply elem_of_map_to_list.
Qed.

Lemma rows_by_id_NoDup {A} (table : gmap Z A) : NoDup (rows_by_id table).*1.
Proof.
  unfold rows_by_id. rewrite orderBy_asc_perm. apply NoDup_fst_map_to_list.
Qed.

Lemma next_account_id_fresh {A} (table : gmap Z A) :
  table !! next_account_id table = None.
Proof.
  destruct (table !! next_account_id table) as [a|] eqn:Hlook; [|reflexivity].
  exfalso. apply elem_of_map_to_list in Hlook.
  assert (Hin : next_account_id table ∈ (map_to_list table).*1).
  { apply list_elem_of_fmap. exists (next_account_id table, a). auto. }
  apply max_bound in Hin. unfold next_account_id in Hin at 1. lia.
Qed.

Lemma js_app (a b : string) : js (a ++ b)%string = js a ++ js b.
Proof.
  unfold js. induction a as [|c a IH]; simpl; [reflexivity|].
  f_equal. exact IH.
Qed.

Lemma toString_digit (d : Z) :
  0 <= d < 10 ->
  exists c, js (toString d) = [c] /\ is_digit c = true.
Proof.
  intros Hd.
  assert (Hcases : d = 0 \/ d = 1 \/ d = 2 \/ d = 3 \/ d = 4 \/ d = 5
                   \/ d = 6 \/ d = 7 \/ d = 8 \/ d = 9) by lia.
  repeat (destruct Hcases as [->|Hcases]; [eexists; split; reflexivity|]).
  subst. eexists; split; reflexivity.
Qed.

Lemma generateAccountNumber_loop_digits (randomInt : nat -> Z) :
  (forall k, 0 <= randomInt k < 10) ->
  forall (n k : nat) (accountNumber : string),
  exists digits,
    js (generateAccountNumber_loop n randomInt k accountNumber)
    = js accountNumber ++ digits
    /\ length digits = n /\ forallb is_digit digits = true.
Proof.
  intros Hrange. induction n as [|n IH]; intros k accountNumber; simpl.
  - exists []. now rewrite app_nil_r.
  - destruct (IH (S k) (accountNumber ++ toString (randomInt k))%string)
      as (digits & Hjs & Hlen & Hdig).
    destruct (toString_digit _ (Hrange k)) as (c & Hc & Hcd).
    exists (c :: digits). rewrite Hjs, js_app, Hc, <- app_assoc. simpl.
    rewrite Hcd, Hdig, Hlen. auto.
Qed.

(** [generateAccountNumber] returns ten decimal digits, whatever
    [randomInt(0, 10)] draws. *)
Theorem generateAccountNumber_ten_digits (randomInt : nat -> Z) (k : nat) :
  (forall k, 0 <= randomInt k < 10) ->
  length (js (generateAccountNumber randomInt k)) = 10%nat
  /\ forallb is_digit (js (generateAccountNumber randomInt k)) = true.
Proof.
  intros Hrange. unfold generateAccountNumber.
  destruct (generateAccountNumber_loop_digits _ Hrange 10 k "")
    as (digits & Hjs & Hlen & Hdig).
  rewrite Hjs. simpl. auto.
Qed.

Lemma generateAccountNumber_ten_digits_witness :
  (forall k, 0 <= Z.of_nat (k mod 10) < 10)
  /\ generateAccountNumber (fun k => Z.of_nat (k mod 10)) 7 = "7890123456"
  /\ length (js (generateAccountNumber (fun k => Z.of_nat (k mod 10)) 7))
     = 10%nat
  /\ forallb is_digit
       (js (generateAccountNumber (fun k => Z.of_nat (k mod 10)) 7)) = true.
Proof.
  assert (Hrange : forall k, 0 <= Z.of_nat (k mod 10) < 10).
  { intros k. pose proof (Nat.mod_upper_bound k 10). lia. }
  split; [exact Hrange|]. split; [vm_compute; reflexivity|].
  apply (generateAccountNumber_ten_digits _ 7 Hrange).
Defined.

Section AccountsProps.
Context {num : Type} `{Number num}.

(** The account [createAccount] inserts. *)
Local Abbreviation opened env accountType accountNumber :=
  (mkAccount (num := num) (ctx_user_id env) accountNumber
     (account_type_name accountType) num_zero "active").

Lemma select_accounts_where_elem (cond : Account num -> bool) (s : Store num)
    (i : Z) (a : Account num) :
  (i, a) ∈ select_accounts_where cond s
  <-> accounts s !! i = Some a /\ cond a = true.
Proof.
  unfold select_accounts_where.
  rewrite list_elem_of_filter, elem_of_rows_by_id. simpl.
  destruct (cond a); simpl; intuition (auto; discriminate).
Qed.

Lemma select_accounts_where_None (cond : Account num -> bool) (s : Store num) :
  head (select_accounts_where cond s) = None
  <-> forall i a, accounts s !! i = Some a -> cond a = false.
Proof.
  unfold select_accounts_where. rewrite (head_filter_None (fun r => cond r.2)).
  split.
  - intros Hall i a Ha. apply (Hall (i, a)). now apply elem_of_rows_by_id.
  - intros Hall [i a] Hin. apply (Hall i a). now apply elem_of_rows_by_id.
Qed.

Lemma select_accounts_where_Some (cond : Account num -> bool) (s : Store num)
    (i : Z) (a : Account num) :
  head (select_accounts_where cond s) = Some (i, a) ->
  accounts s !! i = Some a /\ cond a = true.
Proof.
  intros Hhead. apply select_accounts_where_elem.
  now apply head_Some_elem_of.
Qed.

Lemma existing_account (env : Env) (accountType : AccountType)
    (s : Store num) :
  head (select_accounts_where
          (fun a => (acc_userId a =? ctx_user_id env)
                    && String.eqb (acc_accountType a)
                         (account_type_name accountType)) s) = None
  <-> ~ has_account env accountType s.
Proof.
  rewrite select_accounts_where_None. unfold has_account. split.
  - intros Hall (i & a & Ha & Hu & Ht). specialize (Hall i a Ha).
    rewrite Hu, Ht, Z.eqb_refl, String.eqb_refl in Hall. discriminate.
  - intros Hnone i a Ha.
    destruct (acc_userId a =? ctx_user_id env) eqn:Hu; [|reflexivity].
    destruct (String.eqb _ _) eqn:Ht; [|reflexivity].
    exfalso. apply Hnone. exists i, a.
    apply Z.eqb_eq in Hu. apply String.eqb_eq in Ht. auto.
Qed.

Lemma existing_number (accountNumber : string) (s : Store num) :
  head (select_accounts_where
          (fun a => String.eqb (acc_accountNumber a) accountNumber) s) = None
  <-> number_free accountNumber s.
Proof.
  rewrite select_accounts_where_None. unfold number_free.
  split; intros Hall i a Ha; specialize (Hall i a Ha).
  - now apply String.eqb_neq.
  - now apply String.eqb_neq.
Qed.

(** The [k]-th number the loop of [createAccount] tries. *)
Local Abbreviation candidate randomInt k :=
  (generateAccountNumber randomInt (10 * k)).

Lemma unique_account_number_first (randomInt : nat -> Z) (s : Store num) :
  forall (fuel j k : nat),
    (j < fuel)%nat ->
    number_free (generateAccountNumber randomInt (k + 10 * j)) s ->
    (forall j', (j' < j)%nat ->
       ~ number_free (generateAccountNumber randomInt (k + 10 * j')) s) ->
    unique_account_number fuel randomInt k s
    = Some (generateAccountNumber randomInt (k + 10 * j),
            (k + 10 * S j)%nat).
Proof.
  induction fuel as [|fuel IH]; intros j k Hj Hfree Hused; [lia|].
  cbn [unique_account_number].
  destruct j as [|j].
  - replace (k + 10 * 0)%nat with k in * by lia.
    apply existing_number in Hfree. rewrite Hfree.
    do 2 f_equal; lia.
  - destruct (head _) as [row|] eqn:Hhead.
    + rewrite (IH j (k + 10)%nat).
      * f_equal. f_equal; [f_equal|]; lia.
      * lia.
      * replace (k + 10 + 10 * j)%nat with (k + 10 * S j)%nat by lia.
        exact Hfree.
      * intros j' Hj'.
        replace (k + 10 + 10 * j')%nat with (k + 10 * S j')%nat by lia.
        apply Hused. lia.
    + exfalso. apply (Hused 0%nat); [lia|].
      replace (k + 10 * 0)%nat with k by lia.
      now apply existing_number.
Qed.

Lemma unique_account_number_free (randomInt : nat -> Z) (s : Store num) :
  forall (fuel k : nat) (accountNumber : string) (k' : nat),
    unique_account_number fuel randomInt k s = Some (accountNumber, k') ->
    number_free accountNumber s
    /\ exists j, accountNumber = generateAccountNumber randomInt (k + 10 * j).
Proof.
  induction fuel as [|fuel IH]; intros k accountNumber k' Hrun;
    [discriminate|].
  cbn [unique_account_number] in Hrun.
  destruct (head _) as [row|] eqn:Hhead.
  - apply IH in Hrun as [Hfree [j Hj]]. split; [exact Hfree|].
    exists (S j). rewrite Hj. f_equal. lia.
  - inversion Hrun; subst. split; [now apply existing_number|].
    exists 0%nat. f_equal. lia.
Qed.

(** The row read back after the insert is the inserted one. *)
Lemma select_inserted (a : Account num) (s : Store num) :
  number_free (acc_accountNumber a) s ->
  head (select_accounts_where
          (fun b => String.eqb (acc_accountNumber b) (acc_accountNumber a))
          (insert_account a s))
  = Some (next_account_id (accounts s), a).
Proof.
  intros Hfree.
  destruct (head _) as [[i b]|] eqn:Hhead.
  - apply select_accounts_where_Some in Hhead as [Hb Hnum].
    apply String.eqb_eq in Hnum. unfold insert_account in Hb. simpl in Hb.
    rewrite lookup_insert in Hb. destruct (decide _) as [Heq|Hne].
    + inversion Hb; subst. reflexivity.
    + exfalso. exact (Hfree i b Hb Hnum).
  - exfalso. rewrite select_accounts_where_None in Hhead.
    specialize (Hhead (next_account_id (accounts s)) a).
    unfold insert_account in Hhead. simpl in Hhead.
    rewrite lookup_insert_eq, String.eqb_refl in Hhead.
    specialize (Hhead eq_refl). discriminate.
Qed.

(** What [createAccount] does, case by case. *)
Lemma createAccount_cases (fuel : nat) (randomInt : nat -> Z) (env : Env)
    (accountType : AccountType) (s s' : Store num)
    (r : CreateAccountError + Z * Account num) :
  createAccount fuel randomInt env accountType s = Some (s', r) ->
  (has_account env accountType s
   /\ s' = s /\ r = inl (AlreadyHasAccount accountType))
  \/ (~ has_account env accountType s
      /\ exists accountNumber,
           number_free accountNumber s
           /\ (exists j, accountNumber = candidate randomInt j)
           /\ s' = insert_account (opened env accountType accountNumber) s
           /\ r = inr (next_account_id (accounts s),
                       opened env accountType accountNumber)).
Proof.
  unfold createAccount. intros Hrun.
  destruct (head _) as [[i a]|] eqn:Hexisting.
  - left. inversion Hrun; subst. repeat split.
    apply select_accounts_where_Some in Hexisting as [Ha Hcond].
    apply andb_true_iff in Hcond as [Hu Ht].
    apply Z.eqb_eq in Hu. apply String.eqb_eq in Ht.
    exists i, a. auto.
  - right. split; [now apply existing_account|].
    destruct (unique_account_number fuel randomInt 0 s)
      as [[accountNumber k']|] eqn:Hloop; [|discriminate].
    apply unique_account_number_free in Hloop as [Hfree Hcand].
    exists accountNumber. split; [exact Hfree|]. split; [exact Hcand|].
    pose proof (select_inserted (opened env accountType accountNumber) s Hfree)
      as Hread.
    simpl in Hread. rewrite Hread in Hrun. now inversion Hrun.
Qed.

(** [createAccount] refuses with CONFLICT exactly when the caller
    already has an account of the type, and then leaves the store as it
    is. *)
Theorem createAccount_conflict (fuel : nat) (randomInt : nat -> Z) (env : Env)
    (accountType : AccountType) (s : Store num) :
  has_account env accountType s
  <-> createAccount fuel randomInt env accountType s
      = Some (s, inl (AlreadyHasAccount accountType)).
Proof.
  split.
  - intros Hhas. unfold createAccount.
    destruct (head _) as [row|] eqn:Hexisting; [reflexivity|].
    apply existing_account in Hexisting. contradiction.
  - intros Hrun. apply createAccount_cases in Hrun
      as [(Hhas & _)|(_ & n & _ & _ & _ & Hr)]; [exact Hhas|discriminate].
Qed.

(** When the caller has no account of the type and [createAccount]
    returns, it has added one row under a new id and returns it: the
    caller's, of the type asked for, with balance 0, active, with a
    number no other account has; the other rows and the journal are
    untouched. *)
Theorem createAccount_opens (fuel : nat) (randomInt : nat -> Z) (env : Env)
    (accountType : AccountType) (s s' : Store num)
    (r : CreateAccountError + Z * Account num) :
  ~ has_account env accountType s ->
  createAccount fuel randomInt env accountType s = Some (s', r) ->
  exists id accountNumber,
    r = inr (id, opened env accountType accountNumber)
    /\ accounts s !! id = None
    /\ number_free accountNumber s
    /\ accounts s' = <[id := opened env accountType accountNumber]> (accounts s)
    /\ transactions s' = transactions s.
Proof.
  intros Hnone Hrun. apply createAccount_cases in Hrun
    as [(Hhas & _)|(_ & n & Hfree & _ & -> & ->)]; [contradiction|].
  exists (next_account_id (accounts s)), n.
  repeat split; [apply next_account_id_fresh|exact Hfree].
Qed.

(** [createAccount] never fails with INTERNAL_SERVER_ERROR: the row it
    reads back after the insert is always found.  Whenever it returns,
    it returns the CONFLICT or the opened account. *)
Theorem createAccount_never_fails_internally (fuel : nat)
    (randomInt : nat -> Z) (env : Env) (accountType : AccountType)
    (s s' : Store num) (r : CreateAccountError + Z * Account num) :
  createAccount fuel randomInt env accountType s = Some (s', r) ->
  r = inl (AlreadyHasAccount accountType) \/ exists row, r = inr row.
Proof.
  intros Hrun. apply createAccount_cases in Hrun
    as [(_ & _ & Hr)|(_ & n & _ & _ & _ & Hr)]; [now left|right; eauto].
Qed.

(** The loop of [createAccount] ends at the first number it draws that
    no account has: with that number at the [j]-th draw and fuel for
    more than [j] rounds, [createAccount] returns the account opened
    under it. *)
Theorem createAccount_first_free_number (fuel j : nat) (randomInt : nat -> Z)
    (env : Env) (accountType : AccountType) (s : Store num) :
  ~ has_account env accountType s ->
  (j < fuel)%nat ->
  number_free (candidate randomInt j) s ->
  (forall j', (j' < j)%nat -> ~ number_free (candidate randomInt j') s) ->
  createAccount fuel randomInt env accountType s
  = Some (insert_account
            (opened env accountType (candidate randomInt j)) s,
          inr (next_account_id (accounts s),
               opened env accountType (candidate randomInt j))).
Proof.
  intros Hnone Hj Hfree Hused. unfold createAccount.
  apply existing_account in Hnone. rewrite Hnone.
  rewrite (unique_account_number_first randomInt s fuel j 0 Hj Hfree Hused).
  pose proof (select_inserted
                (opened env accountType (candidate randomInt j)) s Hfree)
    as Hread.
  simpl in *. now rewrite Hread.
Qed.

(** [createAccount] keeps account numbers unique and keeps at most one
    account per user and type. *)
Theorem createAccount_keeps_invariants (fuel : nat) (randomInt : nat -> Z)
    (env : Env) (accountType : AccountType) (s s' : Store num)
    (r : CreateAccountError + Z * Account num) :
  unique_account_numbers s ->
  one_account_per_type s ->
  createAccount fuel randomInt env accountType s = Some (s', r) ->
  unique_account_numbers s' /\ one_account_per_type s'.
Proof.
  intros Huniq Hone Hrun. apply createAccount_cases in Hrun
    as [(_ & -> & _)|(Hnone & n & Hfree & _ & -> & _)]; [auto|].
  unfold insert_account. split.
  - intros i j a b. simpl. rewrite !lookup_insert.
    destruct (decide _) as [<-|Hi], (decide _) as [<-|Hj];
      intros Ha Hb Hnum; try reflexivity.
    + inversion Ha; subst. simpl in Hnum. symmetry in Hnum.
      exfalso. exact (Hfree j b Hb Hnum).
    + inversion Hb; subst. simpl in Hnum.
      exfalso. exact (Hfree i a Ha Hnum).
    + exact (Huniq i j a b Ha Hb Hnum).
  - intros i j a b. simpl. rewrite !lookup_insert.
    destruct (decide _) as [<-|Hi], (decide _) as [<-|Hj];
      intros Ha Hb Hu Ht; try reflexivity.
    + inversion Ha; subst. simpl in *. exfalso. apply Hnone.
      exists j, b. auto.
    + inversion Hb; subst. simpl in *. exfalso. apply Hnone.
      exists i, a. auto.
    + exact (Hone i j a b Ha Hb Hu Ht).
Qed.

(** *** Opening accounts and the ledger *)

Lemma funded_row (env : Env) (input : FundInput num) (account : Account num)
    (s : Store num) (i : Z) (a' : Account num) :
  accounts (funded env input account s) !! i = Some a' ->
  exists a,
    accounts s !! i = Some a
    /\ acc_userId a' = acc_userId a
    /\ acc_accountNumber a' = acc_accountNumber a
    /\ acc_accountType a' = acc_accountType a
    /\ acc_status a' = acc_status a.
Proof.
  rewrite funded_lookup. destruct (decide _) as [_|_].
  - destruct (accounts s !! i) as [a|]; simpl; [|discriminate].
    intros Ha'. inversion Ha'; subst. exists a. auto.
  - intros Ha'. exists a'. auto.
Qed.

Lemma funded_transactions (env : Env) (input : FundInput num)
    (account : Account num) (s : Store num) :
  exists row,
    transactions (funded env input account s) = transactions s ++ [row]
    /\ tx_accountId row = fi_accountId input
    /\ tx_amount row = fi_amount input
    /\ tx_status row = "completed"
    /\ tx_type row = "deposit"
    /\ tx_createdAt row = db_now env.
Proof.
  unfold funded, update_balance, insert_transaction. simpl.
  eexists. split; [reflexivity|]. simpl. auto.
Qed.

(** [fundAccount] changes no column of the accounts table but
    [balance], and that only in the row of the funded account: the
    table has the same rows before and after, each with its user,
    number, type and status.  So it keeps account numbers unique and
    one account per user and type; and it adds journal rows only for
    accounts that exist. *)
Theorem fundAccount_keeps_invariants (env : Env) (input : FundInput num)
    (s s' : Store num) (r : TRPCError + FundResult num) :
  fundAccount env input s = (s', r) ->
  (forall i, exists balance,
     accounts s' !! i
     = (fun a => with_balance a balance) <$> accounts s !! i)
  /\ (forall i, i <> fi_accountId input ->
                accounts s' !! i = accounts s !! i)
  /\ (unique_account_numbers s -> unique_account_numbers s')
  /\ (one_account_per_type s -> one_account_per_type s')
  /\ (journal_has_accounts s -> journal_has_accounts s').
Proof.
  intros Hrun. destruct r as [e|r].
  { apply fundAccount_failed in Hrun. subst. repeat split; auto.
    intros i. destruct (accounts s !! i) as [a|].
    - exists (acc_balance a). now destruct a.
    - now exists num_zero. }
  apply fundAccount_succeeded in Hrun
    as (account & Hacc & _ & _ & _ & _ & -> & _).
  split; [|split]; [| |repeat split].
  - intros i. rewrite funded_lookup. destruct (decide _) as [_|_].
    + now exists (num_add (acc_balance account) (fi_amount input)).
    + destruct (accounts s !! i) as [a|].
      * exists (acc_balance a). now destruct a.
      * now exists num_zero.
  - intros i Hi. rewrite funded_lookup. destruct (decide _); congruence.
  - intros Huniq i j a b Ha Hb Hnum.
    apply funded_row in Ha as (a0 & Ha0 & _ & Hna & _).
    apply funded_row in Hb as (b0 & Hb0 & _ & Hnb & _).
    apply (Huniq i j a0 b0 Ha0 Hb0). congruence.
  - intros Hone i j a b Ha Hb Hu Ht.
    apply funded_row in Ha as (a0 & Ha0 & Hua & _ & Hta & _).
    apply funded_row in Hb as (b0 & Hb0 & Hub & _ & Htb & _).
    apply (Hone i j a0 b0 Ha0 Hb0); congruence.
  - intros Hjournal t Ht.
    destruct (funded_transactions env input account s)
      as (row & Hrows & Hid & _).
    rewrite Hrows in Ht. rewrite funded_lookup.
    assert (Hs : is_Some (accounts s !! tx_accountId t)).
    { apply elem_of_app in Ht as [Ht|Ht]; [now apply Hjournal|].
      apply list_elem_of_singleton in Ht. subst t. rewrite Hid, Hacc. eauto. }
    destruct (decide _); [|exact Hs].
    destruct Hs as [a Ha]. rewrite Ha. simpl. eauto.
Qed.

Lemma sum_completed_other (accountId : Z) (rows : list (Transaction num)) :
  (forall t, t ∈ rows -> tx_accountId t <> accountId) ->
  sum_completed accountId rows = num_zero.
Proof.
  unfold sum_completed. generalize (num_zero (num := num)).
  induction rows as [|t rows IH]; intros acc Hother; [reflexivity|].
  simpl. replace (tx_accountId t =? accountId) with false.
  - simpl. apply IH. intros t' Ht'. apply Hother. now right.
  - symmetry. apply Z.eqb_neq. apply Hother. now left.
Qed.

(** When every journal row belongs to an account, [createAccount]
    keeps it so and keeps every balance equal to the sum of the
    account's completed transactions; the account it returns is in the
    table under the id returned, with balance 0 and without a row in
    the journal. *)
Theorem createAccount_keeps_consistency (fuel : nat) (randomInt : nat -> Z)
    (env : Env) (accountType : AccountType) (s s' : Store num)
    (r : CreateAccountError + Z * Account num) :
  journal_has_accounts s ->
  (forall accountId, balance_consistent accountId s) ->
  createAccount fuel randomInt env accountType s = Some (s', r) ->
  journal_has_accounts s'
  /\ (forall accountId, balance_consistent accountId s')
  /\ (forall id a,
        r = inr (id, a) ->
        accounts s' !! id = Some a
        /\ acc_balance a = num_zero
        /\ sum_completed id (transactions s') = num_zero
        /\ forall t, t ∈ transactions s' -> tx_accountId t <> id).
Proof.
  intros Hjournal Hcons Hrun. apply createAccount_cases in Hrun
    as [(_ & -> & ->)|(_ & n & _ & _ & -> & ->)];
    [split; [|split]; [auto|auto|discriminate]|].
  assert (Hnone : forall t, t ∈ transactions s ->
                    tx_accountId t <> next_account_id (accounts s)).
  { intros t Ht Heq. destruct (Hjournal t Ht) as [b Hb].
    rewrite Heq, next_account_id_fresh in Hb. discriminate. }
  unfold insert_account. split; [|split].
  - intros t Ht. simpl in *. rewrite lookup_insert.
    destruct (decide _); [eauto|]. now apply Hjournal.
  - intros accountId a. simpl. rewrite lookup_insert.
    destruct (decide _) as [<-|Hne]; [|apply Hcons].
    intros Ha. inversion Ha; subst. simpl.
    symmetry. now apply sum_completed_other.
  - intros id a Hr. injection Hr as <- <-. simpl.
    rewrite lookup_insert_eq.
    repeat split; [now apply sum_completed_other|exact Hnone].
Qed.

(** A freshly opened account can be funded by its owner at once: the
    call succeeds, adds one journal row, and the balance returned and
    stored is [0 + amount]. *)
Theorem create_then_fund (fuel : nat) (randomInt : nat -> Z) (env : Env)
    (accountType : AccountType) (s s1 : Store num) (id : Z)
    (a : Account num) (input : FundInput num) :
  createAccount fuel randomInt env accountType s = Some (s1, inr (id, a)) ->
  fi_accountId input = id ->
  fundAccount_schema input = true ->
  card_ok (fi_fundingSource input) = true ->
  exists s2 r,
    fundAccount env input s1 = (s2, inr r)
    /\ fr_newBalance r = num_add num_zero (fi_amount input)
    /\ acc_balance <$> accounts s2 !! id
       = Some (num_add num_zero (fi_amount input))
    /\ length (transactions s2) = S (length (transactions s)).
Proof.
  intros Hcreate Hid Hschema Hcard. apply createAccount_cases in Hcreate
    as [(_ & _ & Hr)|(_ & n & _ & _ & -> & Hr)]; [discriminate|].
  injection Hr as -> ->.
  set (a := opened env accountType n).
  assert (Hsel :
    select_account_of_user (fi_accountId input) (ctx_user_id env)
      (insert_account a s) = Some a).
  { unfold select_account_of_user, insert_account. simpl.
    rewrite Hid, lookup_insert_eq. simpl. now rewrite Z.eqb_refl. }
  apply andb_true_iff in Hschema as [Hpos Hrouting].
  destruct (positive_amount_accepted env input (insert_account a s) a
              Hpos Hrouting Hcard Hsel eq_refl) as [r Hrun].
  exists (funded env input a (insert_account a s)), r.
  split; [exact Hrun|].
  apply fundAccount_succeeded in Hrun
    as (account & Hacc & _ & _ & _ & _ & _ & Hnew).
  apply select_account_of_user_Some in Hsel as [Ha _].
  assert (account = a) by congruence. subst account.
  unfold select_account in Hnew. rewrite funded_lookup in Hnew |- *.
  rewrite Hid in *. destruct (decide _) as [_|Hne]; [|congruence].
  assert (Hlen :
    length (transactions (funded env input a (insert_account a s)))
    = S (length (transactions s))).
  { destruct (funded_transactions env input a (insert_account a s))
      as (row & Hrows & _).
    rewrite Hrows, length_app. simpl. lia. }
  rewrite Ha in Hnew |- *. simpl in Hnew |- *.
  repeat split; [exact Hnew|exact Hlen].
Qed.

End AccountsProps.

(** ** Accounts on exact decimals *)

Module DecimalAccounts.
Import SampleAccounts.

Lemma no_savings : ~ has_account Sample.env savings (Sample.store (num := Q)).
Proof. apply existing_account. vm_compute. reflexivity. Qed.

Lemma sample_run :
  createAccount 3 draws Sample.env savings (Sample.store (num := Q))
  = Some (insert_account (savings_account "0123456789") Sample.store,
          inr (2, savings_account "0123456789")).
Proof. vm_compute. reflexivity. Qed.

Lemma sample_unique : unique_account_numbers (Sample.store (num := Q)).
Proof.
  intros i j a b Ha Hb _. unfold Sample.store in Ha, Hb. simpl in Ha, Hb.
  apply lookup_singleton_Some in Ha as [<- _], Hb as [<- _]. reflexivity.
Qed.

Lemma sample_one_per_type : one_account_per_type (Sample.store (num := Q)).
Proof.
  intros i j a b Ha Hb _ _. unfold Sample.store in Ha, Hb. simpl in Ha, Hb.
  apply lookup_singleton_Some in Ha as [<- _], Hb as [<- _]. reflexivity.
Qed.

Lemma sample_journal : journal_has_accounts (Sample.store (num := Q)).
Proof. intros t Ht. now apply not_elem_of_nil in Ht. Qed.

Lemma sample_consistent (accountId : Z) :
  balance_consistent accountId (Sample.store (num := Q)).
Proof.
  intros a Ha. unfold Sample.store in Ha. simpl in Ha.
  apply lookup_singleton_Some in Ha as [<- <-]. reflexivity.
Qed.

Lemma createAccount_opens_witness :
  exists id accountNumber,
    inr (2, savings_account "0123456789")
    = inr (B := Z * Account Q) (A := CreateAccountError)
        (id, mkAccount 7 accountNumber "savings" 0%Q "active")
    /\ accounts (Sample.store (num := Q)) !! id = None
    /\ number_free accountNumber (Sample.store (num := Q))
    /\ accounts (insert_account (savings_account "0123456789") Sample.store)
       = <[id := mkAccount 7 accountNumber "savings" 0%Q "active"]>
           (accounts Sample.store)
    /\ transactions
         (insert_account (savings_account "0123456789") Sample.store)
       = transactions (Sample.store (num := Q)).
Proof.
  exact (createAccount_opens 3 draws Sample.env savings Sample.store _ _
           no_savings sample_run).
Defined.

Lemma createAccount_never_fails_internally_witness :
  inr (2, savings_account "0123456789")
  = inl (B := Z * Account Q) (AlreadyHasAccount savings)
  \/ exists row, inr (A := CreateAccountError)
                   (2, savings_account "0123456789") = inr row.
Proof.
  exact (createAccount_never_fails_internally 3 draws Sample.env savings
           Sample.store _ _ sample_run).
Defined.

Lemma createAccount_first_free_number_witness :
  generateAccountNumber colliding_draws (10 * 0) = "1234567890"
  /\ generateAccountNumber colliding_draws (10 * 1) = "0123456789"
  /\ createAccount 3 colliding_draws Sample.env savings
       (Sample.store (num := Q))
     = Some (insert_account
               (mkAccount (ctx_user_id Sample.env)
                  (generateAccountNumber colliding_draws (10 * 1))
                  (account_type_name savings) num_zero "active")
               Sample.store,
             inr (next_account_id (accounts (Sample.store (num := Q))),
                  mkAccount (ctx_user_id Sample.env)
                    (generateAccountNumber colliding_draws (10 * 1))
                    (account_type_name savings) num_zero "active")).
Proof.
  split; [vm_compute; reflexivity|]. split; [vm_compute; reflexivity|].
  apply (createAccount_first_free_number 3 1 colliding_draws Sample.env
           savings (Sample.store (num := Q)) no_savings).
  - lia.
  - apply existing_number. vm_compute. reflexivity.
  - intros j' Hj' Hfree. assert (j' = 0%nat) as -> by lia.
    apply existing_number in Hfree. vm_compute in Hfree. discriminate.
Defined.

Lemma createAccount_keeps_invariants_witness :
  unique_account_numbers
    (insert_account (savings_account "0123456789") Sample.store)
  /\ one_account_per_type
       (insert_account (savings_account "0123456789") Sample.store).
Proof.
  exact (createAccount_keeps_invariants 3 draws Sample.env savings
           Sample.store _ _ sample_unique sample_one_per_type sample_run).
Defined.

Lemma createAccount_keeps_consistency_witness :
  journal_has_accounts
    (insert_account (savings_account "0123456789") Sample.store)
  /\ (forall accountId,
        balance_consistent accountId
          (insert_account (savings_account "0123456789") Sample.store))
  /\ accounts (insert_account (savings_account "0123456789") Sample.store)
       !! 2 = Some (savings_account "0123456789")
  /\ acc_balance (savings_account "0123456789") = 0%Q.
Proof.
  destruct (createAccount_keeps_consistency 3 draws Sample.env savings
              Sample.store _ _ sample_journal sample_consistent sample_run)
    as (Hjournal & Hcons & Hnew).
  destruct (Hnew 2 (savings_account "0123456789") eq_refl)
    as (Hrow & Hzero & _).
  auto.
Defined.

Lemma create_then_fund_witness :
  exists s2 r,
    fundAccount Sample.env fund_savings
      (insert_account (savings_account "0123456789") Sample.store)
    = (s2, inr r)
    /\ fr_newBalance r = (0 + 10.5)%Q
    /\ acc_balance <$> accounts s2 !! 2 = Some (0 + 10.5)%Q
    /\ length (transactions s2) = 1%nat.
Proof.
  apply (create_then_fund 3 draws Sample.env savings Sample.store _ 2
           (savings_account "0123456789") fund_savings sample_run);
    reflexivity.
Defined.

Lemma fundAccount_keeps_invariants_witness :
  let s' := (fundAccount Sample.env (Sample.card_funding 10.5%Q)
               Sample.store).1 in
  (exists balance,
     accounts s' !! 1 = Some (with_balance Sample.account balance))
  /\ unique_account_numbers s'
  /\ one_account_per_type s'
  /\ journal_has_accounts s'.
Proof.
  destruct (fundAccount_keeps_invariants Sample.env
              (Sample.card_funding 10.5%Q) Sample.store _ _
              (surjective_pairing _)) as (Hrows & _ & Hu & Ho & Hj).
  split; [exact (Hrows 1)|].
  split; [exact (Hu sample_unique)|].
  split; [exact (Ho sample_one_per_type)|exact (Hj sample_journal)].
Defined.

End DecimalAccounts.


(** ** The journal under [fundAccount] *)

Lemma orderBy_desc_snoc_newest {A} (key : A -> Z) (rows : list A) (x : A) :
  (forall y, y ∈ rows -> key y < key x) ->
  orderBy_desc key (rows ++ [x]) = x :: orderBy_desc key rows.
Proof.
  unfold orderBy_desc.
  induction rows as [|y rows IH]; intros Hnew; [reflexivity|].
  simpl. rewrite IH by (intros z Hz; apply Hnew; now right).
  simpl. replace (key y <? key x) with true; [reflexivity|].
  symmetry. apply Z.ltb_lt. apply Hnew. now left.
Qed.

Lemma orderBy_asc_snoc_newest {A} (key : A -> Z) (rows : list A) (x : A) :
  (forall y, y ∈ rows -> key y <= key x) ->
  orderBy_asc key (rows ++ [x]) = orderBy_asc key rows ++ [x].
Proof.
  unfold orderBy_asc.
  induction rows as [|y rows IH]; intros Hnew; [reflexivity|].
  simpl. rewrite IH by (intros z Hz; apply Hnew; now right).
  assert (Hy : key y <= key x) by (apply Hnew; now left).
  generalize (foldr (insert_asc key) [] rows). intros sorted.
  induction sorted as [|z sorted IHs]; simpl.
  - replace (key x <? key y) with false; [reflexivity|].
    symmetry. apply Z.ltb_ge. exact Hy.
  - destruct (key z <? key y); simpl; [now rewrite IHs|reflexivity].
Qed.

Section JournalProps.
Context {num : Type} `{Number num}.

Lemma fundAccount_result (env : Env) (input : FundInput num)
    (s s' : Store num) (r : FundResult num) :
  fundAccount env input s = (s', inr r) ->
  exists account,
    select_account_of_user (fi_accountId input) (ctx_user_id env) s
    = Some account
    /\ s' = funded env input account s
    /\ transactions s' = transactions s ++ [deposit_row env input s]
    /\ fr_transaction r
       = select_latest_transaction (fi_accountId input)
           (mkStore (accounts s)
              (transactions s ++ [deposit_row env input s]))
    /\ num_positive (fi_amount input) = true.
Proof.
  rewrite fundAccount_cases.
  destruct (fundAccount_schema input) eqn:Hschema; simpl; [|discriminate].
  destruct (card_ok _); simpl; [|discriminate].
  destruct (select_account_of_user _ _ s) as [account|]; [|discriminate].
  destruct (String.eqb _ _); simpl; [|discriminate].
  intros Hrun. inversion Hrun; subst. exists account.
  apply andb_true_iff in Hschema as [Hpos _]. repeat split. exact Hpos.
Qed.

Lemma filter_account_snoc (accountId : Z) (rows : list (Transaction num))
    (t : Transaction num) :
  tx_accountId t = accountId ->
  filter (fun t => tx_accountId t = accountId) (rows ++ [t])
  = filter (fun t => tx_accountId t = accountId) rows ++ [t].
Proof.
  intros Ht. rewrite filter_app. f_equal.
  now rewrite filter_cons_True, filter_nil.
Qed.

(** The newest row of an account, once a row stamped later than all
    its rows has been appended, is that row. *)
Lemma select_latest_appended (env : Env) (input : FundInput num)
    (s : Store num) :
  (forall t, t ∈ transactions s -> tx_accountId t = fi_accountId input ->
             tx_createdAt t < db_now env) ->
  select_latest_transaction (fi_accountId input)
    (mkStore (accounts s) (transactions s ++ [deposit_row env input s]))
  = Some (deposit_row env input s).
Proof.
  intros Hclock. unfold select_latest_transaction. simpl.
  rewrite filter_account_snoc by reflexivity.
  rewrite orderBy_desc_snoc_newest; [reflexivity|].
  intros t Ht. apply list_elem_of_filter in Ht as [Hid Ht].
  now apply Hclock.
Qed.

(** When the database clock is past every earlier row of the account,
    the transaction a successful [fundAccount] returns is the row it
    has just inserted: a completed deposit of the amount, stamped with
    that time. *)
Theorem fundAccount_returns_created (env : Env) (input : FundInput num)
    (s s' : Store num) (r : FundResult num) :
  fundAccount env input s = (s', inr r) ->
  (forall t, t ∈ transactions s -> tx_accountId t = fi_accountId input ->
             tx_createdAt t < db_now env) ->
  fr_transaction r = Some (deposit_row env input s)
  /\ transactions s' = transactions s ++ [deposit_row env input s].
Proof.
  intros Hrun Hclock.
  apply fundAccount_result in Hrun as (account & _ & _ & Hrows & Htx & _).
  split; [|exact Hrows].
  rewrite Htx. now apply select_latest_appended.
Qed.

(** A sequence of [fundAccount] calls only appends to the journal: the
    rows that were there stay as they are, one row comes for each call
    that succeeds, and each of them is a completed deposit of a
    positive amount. *)
Theorem fund_all_appends (calls : list (Env * FundInput num))
    (s s' : Store num) (results : list (TRPCError + FundResult num)) :
  fund_all calls s = (s', results) ->
  exists added,
    transactions s' = transactions s ++ added
    /\ length added = length (filter (fun r => succeeded r = true) results)
    /\ Forall (fun t => tx_type t = "deposit"
                        /\ tx_status t = "completed"
                        /\ num_positive (tx_amount t) = true) added.
Proof.
  revert s s' results.
  induction calls as [|[env input] calls IH]; intros s s' results Hrun.
  - simpl in Hrun. inversion Hrun; subst. exists []. rewrite app_nil_r. auto.
  - simpl in Hrun.
    destruct (fundAccount env input s) as [s1 r] eqn:Hcall.
    destruct (fund_all calls s1) as [s2 rs] eqn:Hrest.
    inversion Hrun; subst; clear Hrun.
    destruct (IH _ _ _ Hrest) as (added & Hrows & Hlen & Hall).
    destruct r as [e|r].
    + apply fundAccount_failed in Hcall. subst s1.
      exists added. rewrite filter_cons_False by (simpl; discriminate). auto.
    + apply fundAccount_result in Hcall
        as (account & _ & _ & Hrow & _ & Hpos).
      exists (deposit_row env input s :: added).
      rewrite Hrows, Hrow, <- app_assoc.
      rewrite filter_cons_True by reflexivity.
      simpl. rewrite Hlen. repeat split. constructor; [|exact Hall].
      simpl. auto.
Qed.

Lemma next_id_above (rows : list (Transaction num)) (t : Transaction num) :
  t ∈ rows -> tx_id t < next_id rows.
Proof.
  intros Ht. unfold next_id.
  assert (tx_id t <= foldr Z.max 0 (tx_id <$> rows)); [|lia].
  apply max_bound. apply list_elem_of_fmap. eauto.
Qed.

(** *** The earlier revision *)

Lemma fundAccount_earlier_cases (env : Env) (input : FundInput num)
    (s : Store num) :
  fundAccount_earlier env input s =
  match fundAccount env input s with
  | (s', inl e) => (s', inl e)
  | (s', inr r) =>
      (s', inr (mkFundResult
                  (select_first_transaction (fi_accountId input)
                     (mkStore (accounts s)
                        (transactions s ++ [deposit_row env input s])))
                  (fr_newBalance r)))
  end.
Proof.
  rewrite fundAccount_cases.
  unfold fundAccount_earlier, bind, ret, throw, query, exec, card_ok, funded,
    deposit_row.
  cbn beta iota.
  destruct (fundAccount_schema input); simpl; [|reflexivity].
  destruct (fs_type (fi_fundingSource input)); simpl.
  - destruct (CardValidation.isValidCardNumber _); simpl; [|reflexivity].
    destruct (select_account_of_user _ _ s) as [account|]; [|reflexivity].
    destruct (String.eqb (acc_status account) "active"); reflexivity.
  - destruct (select_account_of_user _ _ s) as [account|]; [|reflexivity].
    destruct (String.eqb (acc_status account) "active"); reflexivity.
Qed.

(** The earlier [fundAccount] and the current one fail on the same
    inputs with the same error, leave the same store behind and return
    the same [newBalance]; they can differ only in the transaction
    they return. *)
Theorem fundAccount_earlier_same_effect (env : Env) (input : FundInput num)
    (s : Store num) :
  (fundAccount_earlier env input s).1 = (fundAccount env input s).1
  /\ match (fundAccount_earlier env input s).2,
           (fundAccount env input s).2 with
     | inl e1, inl e2 => e1 = e2
     | inr r1, inr r2 => fr_newBalance r1 = fr_newBalance r2
     | _, _ => False
     end.
Proof.
  rewrite fundAccount_earlier_cases.
  destruct (fundAccount env input s) as [s' [e|r]]; simpl; auto.
Qed.

(** On an account that already has transactions, none stamped later
    than the database clock, the earlier [fundAccount] returns one of
    those older rows - one with the least [createdAt] - and not the
    row it has inserted. *)
Theorem fundAccount_earlier_returns_oldest (env : Env) (input : FundInput num)
    (s s' : Store num) (r : FundResult num) (t0 : Transaction num) :
  fundAccount_earlier env input s = (s', inr r) ->
  t0 ∈ transactions s ->
  tx_accountId t0 = fi_accountId input ->
  (forall t, t ∈ transactions s -> tx_accountId t = fi_accountId input ->
             tx_createdAt t <= db_now env) ->
  exists t,
    fr_transaction r = Some t
    /\ t ∈ transactions s
    /\ tx_accountId t = fi_accountId input
    /\ tx_id t <> tx_id (deposit_row env input s)
    /\ forall t', t' ∈ transactions s ->
                  tx_accountId t' = fi_accountId input ->
                  tx_createdAt t <= tx_createdAt t'.
Proof.
  rewrite fundAccount_earlier_cases.
  destruct (fundAccount env input s) as [s1 [e|r1]]; [discriminate|].
  intros Hrun Ht0 Hid0 Hclock. inversion Hrun; subst. clear Hrun. simpl.
  unfold select_first_transaction. simpl.
  rewrite filter_account_snoc by reflexivity.
  set (own := filter (fun t => tx_accountId t = fi_accountId input)
                (transactions s)).
  assert (Hown : forall t, t ∈ own <->
                   tx_accountId t = fi_accountId input /\ t ∈ transactions s).
  { intros t. unfold own. rewrite list_elem_of_filter. reflexivity. }
  rewrite orderBy_asc_snoc_newest; cycle 1.
  { intros t Ht. apply Hown in Ht as [Hid Ht]. now apply Hclock. }
  pose proof (orderBy_asc_perm tx_createdAt own) as Hperm.
  pose proof (orderBy_asc_sorted tx_createdAt own) as Hsorted.
  destruct (orderBy_asc tx_createdAt own) as [|t sorted] eqn:Hsort.
  { exfalso. assert (Hin : t0 ∈ own) by (apply Hown; auto).
    rewrite <- Hperm in Hin. now apply not_elem_of_nil in Hin. }
  exists t. simpl. split; [reflexivity|].
  assert (Ht : t ∈ own) by (rewrite <- Hperm; now left).
  apply Hown in Ht as [Hid Ht]. repeat split; auto.
  - apply next_id_above in Ht. unfold deposit_row. simpl. lia.
  - intros t' Ht' Hid'.
    assert (Hin : t' ∈ t :: sorted) by (rewrite Hperm; apply Hown; auto).
    apply StronglySorted_inv in Hsorted as [_ Hall].
    apply elem_of_cons in Hin as [->|Hin]; [lia|].
    rewrite Forall_forall in Hall. now apply Hall.
Qed.

(** *** The funding script *)

Lemma funding_loop_runs (env : nat -> Env) (accountId userId : Z)
    (amount : num) :
  (forall i, ctx_user_id (env i) = userId) ->
  num_positive amount = true ->
  forall (iterations i : nat) (last : option num) (s : Store num)
         (account : Account num),
    select_account_of_user accountId userId s = Some account ->
    acc_status account = "active" ->
    exists s' account',
      funding_loop iterations i env (script_input accountId amount) last s
      = (s', inr (match iterations with
                  | O => last
                  | S _ => Some (acc_balance account')
                  end))
      /\ accounts s' !! accountId = Some account'
      /\ acc_balance account'
         = Nat.iter iterations (fun b => num_add b amount)
             (acc_balance account)
      /\ length (transactions s')
         = (length (transactions s) + iterations)%nat.
Proof.
  intros Huser Hpos.
  induction iterations as [|n IH]; intros i last s account Hsel Hactive.
  - exists s, account. simpl.
    apply select_account_of_user_Some in Hsel as [Ha _].
    repeat split; auto.
  - cbn [funding_loop].
    assert (Hsel' : select_account_of_user
                      (fi_accountId (script_input accountId amount))
                      (ctx_user_id (env i)) s = Some account).
    { rewrite Huser. exact Hsel. }
    destruct (positive_amount_accepted (env i)
                (script_input accountId amount) s account
                Hpos eq_refl eq_refl Hsel' Hactive) as [r Hrun].
    rewrite Hrun.
    pose proof (fundAccount_succeeded _ _ _ _ _ Hrun)
      as (account0 & Hacc0 & _ & _ & _ & _ & _ & Hnew).
    apply select_account_of_user_Some in Hsel as [Ha Hu].
    change (fi_accountId (script_input accountId amount))
      with accountId in *.
    change (fi_amount (script_input accountId amount)) with amount in *.
    assert (account0 = account) by congruence. subst account0.
    remember (funded (env i) (script_input accountId amount) account s)
      as s1 eqn:Hs1.
    pose (account1 := mkAccount (acc_userId account)
                        (acc_accountNumber account) (acc_accountType account)
                        (num_add (acc_balance account) amount)
                        (acc_status account)).
    assert (Ha1 : accounts s1 !! accountId = Some account1).
    { subst s1. rewrite funded_lookup.
      change (fi_accountId (script_input accountId amount)) with accountId.
      change (fi_amount (script_input accountId amount)) with amount.
      destruct (decide _) as [_|Hne]; [|congruence]. now rewrite Ha. }
    assert (Hsel1 : select_account_of_user accountId userId s1 = Some account1).
    { unfold select_account_of_user. rewrite Ha1. simpl.
      rewrite Hu, Z.eqb_refl. reflexivity. }
    destruct (IH (S i) (Some (fr_newBalance r)) s1 account1 Hsel1 Hactive)
      as (s' & account' & Hloop & Ha' & Hbal & Hlen).
    exists s', account'. rewrite Hloop.
    unfold select_account in Hnew. rewrite Ha1 in Hnew.
    repeat split.
    + destruct n; [|reflexivity].
      simpl in Hbal. simpl in Hloop. rewrite Hnew, Hbal. reflexivity.
    + exact Ha'.
    + rewrite Hbal. symmetry.
      apply (Nat.iter_succ_r n (fun b => num_add b amount)).
    + rewrite Hlen.
      destruct (funded_transactions (env i) (script_input accountId amount)
                  account s) as (row & Hrows & _).
      rewrite <- Hs1 in Hrows. rewrite Hrows, length_app. simpl. lia.
Qed.

(** The funding script, run with a positive amount against an active
    account of the user, makes all its [n] calls without an error and
    adds [n] rows to the journal.  The balance it leaves is the old
    balance with the amount added [n] times, one addition after the
    other, as the calls made them; no law of addition is used, so this
    holds for JavaScript's numbers as for exact ones.  The last
    [newBalance] the script has seen is the balance it then finds in
    the table. *)
Theorem funding_script_runs (env : nat -> Env) (accountId userId : Z)
    (amount : num) (n : nat) (s : Store num) (account : Account num) :
  (forall i, ctx_user_id (env i) = userId) ->
  num_positive amount = true ->
  select_account_of_user accountId userId s = Some account ->
  acc_status account = "active" ->
  exists s' finalAccount,
    funding_loop n 0 env (script_input accountId amount) None s
    = (s', inr (match n with
                | O => None
                | S _ => Some (acc_balance finalAccount)
                end))
    /\ accounts s' !! accountId = Some finalAccount
    /\ acc_balance finalAccount
       = Nat.iter n (fun balance => num_add balance amount)
           (acc_balance account)
    /\ length (transactions s') = (length (transactions s) + n)%nat.
Proof.
  intros Huser Hpos Hsel Hactive.
  exact (funding_loop_runs env accountId userId amount Huser Hpos
           n 0%nat None s account Hsel Hactive).
Qed.

End JournalProps.

(** ** The journal on exact decimals *)

Module DecimalJournal.
Import SampleAccounts.

Lemma funding_script_runs_witness :
  exists s' finalAccount,
    funding_loop 3 0 (fun _ => Sample.env) (script_input 1 10.5%Q) None
      Sample.store
    = (s', inr (Some (acc_balance finalAccount)))
    /\ accounts s' !! 1 = Some finalAccount
    /\ acc_balance finalAccount = (((0 + 10.5) + 10.5) + 10.5)%Q
    /\ length (transactions s')
       = (length (transactions (Sample.store (num := Q))) + 3)%nat.
Proof.
  exact (funding_script_runs (fun _ => Sample.env) 1 7 10.5%Q 3
           Sample.store Sample.account (fun _ => eq_refl) eq_refl eq_refl
           eq_refl).
Defined.

Lemma journal_store_clock (t : Transaction Q) :
  t ∈ transactions (Sample.journal_store 10.5%Q) ->
  tx_createdAt t < db_now later.
Proof.
  unfold Sample.journal_store. simpl. intros Ht.
  repeat (apply elem_of_cons in Ht as [->|Ht]; [simpl; lia|]).
  now apply not_elem_of_nil in Ht.
Qed.

Lemma fundAccount_returns_created_witness :
  fr_transaction
    <$> (match (fundAccount later (Sample.card_funding 10.5%Q)
                  (Sample.journal_store 10.5%Q)).2 with
         | inr r => Some r
         | inl _ => None
         end)
  = Some (Some (mkTransaction 7 1 "deposit" 10.5%Q "Funding from card"
                  "completed" 2000 2000)).
Proof.
  destruct (fundAccount later (Sample.card_funding 10.5%Q)
              (Sample.journal_store 10.5%Q)) as [s' [e|r]] eqn:Hrun.
  - vm_compute in Hrun. discriminate.
  - destruct (fundAccount_returns_created _ _ _ _ _ Hrun) as [Htx _].
    + intros t Ht _. now apply journal_store_clock.
    + simpl. rewrite Htx. vm_compute. reflexivity.
Defined.

Lemma fund_all_appends_witness :
  exists added,
    transactions
      (fund_all (Sample.three_calls 10.5 (-1) 0.25)%Q Sample.store).1
    = transactions (Sample.store (num := Q)) ++ added
    /\ length added = 2%nat.
Proof.
  destruct (fund_all_appends (Sample.three_calls 10.5 (-1) 0.25)%Q
              Sample.store _ _ (surjective_pairing _))
    as (added & Hrows & Hlen & _).
  exists added. split; [exact Hrows|]. rewrite Hlen.
  vm_compute. reflexivity.
Defined.

Lemma fundAccount_earlier_returns_oldest_witness :
  exists t,
    fr_transaction
      <$> (match (fundAccount_earlier later (Sample.card_funding 10.5%Q)
                    (Sample.journal_store 10.5%Q)).2 with
           | inr r => Some r
           | inl _ => None
           end) = Some (Some t)
    /\ tx_id t <> 7.
Proof.
  destruct (fundAccount_earlier later (Sample.card_funding 10.5%Q)
              (Sample.journal_store 10.5%Q)) as [s' [e|r]] eqn:Hrun.
  - vm_compute in Hrun. discriminate.
  - destruct (fundAccount_earlier_returns_oldest later
                (Sample.card_funding 10.5%Q) (Sample.journal_store 10.5%Q)
                s' r (Sample.row 1 1 10.5%Q 1000) Hrun)
      as (t & Htx & _ & _ & Hid & _).
    + unfold Sample.journal_store. simpl. now left.
    + reflexivity.
    + intros t Ht _. apply journal_store_clock in Ht. lia.
    + exists t. simpl. rewrite Htx. split; [reflexivity|exact Hid].
Defined.

End DecimalJournal.


(** ** Reading the history *)

Section ReadingProps.
Context {num : Type} `{Number num}.





(** After a successful [fundAccount] made when the database clock is
    past every earlier row of the account, the first page of the
    history starts with the transaction [fundAccount] returned, with
    the account's type. *)
Theorem fund_then_history (env : Env) (input : FundInput num)
    (s s1 : Store num) (r : FundResult num) (limit : option Z) :
  fundAccount env input s = (s1, inr r) ->
  (forall t, t ∈ transactions s -> tx_accountId t = fi_accountId input ->
             tx_createdAt t < db_now env) ->
  getTransactions_schema
    (mkTransactionsInput (fi_accountId input) limit None) = true ->
  exists t a page,
    fr_transaction r = Some t
    /\ accounts s1 !! fi_accountId input = Some a
    /\ getTransactions env
         (mkTransactionsInput (fi_accountId input) limit None) s1
       = (s1, inr (enrich t (Some a) :: page)).
Proof.
  intros Hrun Hclock Hschema.
  pose proof (fundAccount_result _ _ _ _ _ Hrun)
    as (account0 & _ & _ & Hrows & Htx & _).
  rewrite (select_latest_appended _ _ _ Hclock) in Htx.
  apply fundAccount_succeeded in Hrun
    as (account & Hacc & Hu & _ & _ & _ & Hs1 & _).
  set (a := with_balance account
              (num_add (acc_balance account) (fi_amount input))).
  assert (Ha : accounts s1 !! fi_accountId input = Some a).
  { rewrite Hs1, funded_lookup. destruct (decide _); [|congruence].
    now rewrite Hacc. }
  assert (Hsel : select_account_of_user (fi_accountId input)
                   (ctx_user_id env) s1 = Some a).
  { unfold select_account_of_user. rewrite Ha. unfold a. simpl.
    rewrite Hu, Z.eqb_refl. reflexivity. }
  rewrite (getTransactions_page env _ s1 a Hschema Hsel). simpl.
  unfold select_transactions. rewrite Hrows.
  rewrite filter_account_snoc by reflexivity.
  rewrite orderBy_desc_snoc_newest; cycle 1.
  { intros t Ht. apply list_elem_of_filter in Ht as [Hid Ht].
    now apply Hclock. }
  assert (Hl : (1 <= Z.to_nat (default 50%Z limit))%nat).
  { unfold getTransactions_schema in Hschema. simpl in Hschema.
    destruct limit as [l|]; simpl; [|lia].
    apply andb_true_iff in Hschema as [Hlimit _].
    apply andb_true_iff in Hlimit as [H1 _]. apply Z.leb_le in H1. lia. }
  unfold limit_offset. simpl.
  destruct (Z.to_nat (default 50 limit)) as [|n]; [lia|].
  simpl. rewrite Htx. eauto 10.
Qed.

End ReadingProps.

(** ** Overlapping calls on different accounts *)

Section IsolationProps.
Context {num : Type} `{Number num}.

Lemma step_call_input (c : Call num) (s : Store num) :
  call_input (step_call c s).2 = call_input c.
Proof. unfold step_call. now destruct (step _ _ _ s). Qed.

(** A statement of a call touches no account row but its own. *)
Lemma step_call_other (c : Call num) (s : Store num) (id : Z) :
  fi_accountId (call_input c) <> id ->
  accounts (step_call c s).1 !! id = accounts s !! id.
Proof.
  intros Hne. unfold step_call, step.
  destruct (call_pc c); simpl; try reflexivity.
  - destruct (select_account_of_user _ _ s) as [account|]; [|reflexivity].
    destruct (negb _); reflexivity.
  - now rewrite lookup_alter_ne.
Qed.

Lemma step_call_progress (s0 s : Store num) (c : Call num) :
  call_progress s0 s c ->
  call_progress s0 (step_call c s).1 (step_call c s).2.
Proof.
  unfold call_progress, step_call, step.
  destruct c as [env input pc]. cbn [call_pc call_input call_env].
  destruct pc as [|account|account|account t|account t|[e|r]]; simpl;
    try exact id.
  - intros Hsame.
    destruct (select_account_of_user _ _ s) as [account|] eqn:Hsel;
      simpl; [|exact Hsame].
    apply select_account_of_user_Some in Hsel as [Ha _].
    destruct (negb _); simpl; [exact Hsame|].
    split; [congruence|exact Ha].
  - intros [Ha0 Ha]. split; [exact Ha0|].
    rewrite lookup_alter_eq, Ha. reflexivity.
  - intros [Ha0 Ha]. unfold select_account. rewrite Ha.
    exists account. auto.
Qed.

Lemma step_call_progress_other (s0 s : Store num) (c c' : Call num) :
  fi_accountId (call_input c) <> fi_accountId (call_input c') ->
  call_progress s0 s c' ->
  call_progress s0 (step_call c s).1 c'.
Proof.
  intros Hne. unfold call_progress.
  rewrite (step_call_other c s _ Hne). exact id.
Qed.

Lemma run_schedule_progress (s0 : Store num) (schedule : list nat) :
  forall (calls : list (Call num)) (s : Store num),
    NoDup ((fun c => fi_accountId (call_input c)) <$> calls) ->
    Forall (call_progress s0 s) calls ->
    Forall (call_progress s0 (run_schedule schedule calls s).1)
      (run_schedule schedule calls s).2.
Proof.
  induction schedule as [|i schedule IH]; intros calls s Hnd Hall;
    [exact Hall|].
  cbn [run_schedule].
  destruct (calls !! i) as [c|] eqn:Hi; [|now apply IH].
  pose proof (step_call_progress s0 s c) as Hown.
  pose proof (step_call_input c s) as Hinput.
  assert (Hothers : forall j c', calls !! j = Some c' -> j <> i ->
                      call_progress s0 (step_call c s).1 c').
  { intros j c' Hj Hji. apply step_call_progress_other.
    - intros Heq. apply Hji.
      eapply (NoDup_lookup _ j i); [exact Hnd| |].
      + rewrite list_lookup_fmap, Hj. reflexivity.
      + rewrite list_lookup_fmap, Hi. simpl. now rewrite Heq.
    - rewrite Forall_lookup in Hall. exact (Hall j c' Hj). }
  destruct (step_call c s) as [s1 c1]. simpl in *. apply IH.
  - rewrite list_fmap_insert, Hinput.
    rewrite (list_insert_id _ i (fi_accountId (call_input c)));
      [exact Hnd|].
    rewrite list_lookup_fmap, Hi. reflexivity.
  - apply Forall_lookup. intros j c' Hj.
    destruct (decide (j = i)) as [->|Hji].
    + rewrite list_lookup_insert_eq in Hj
        by (now apply lookup_lt_Some in Hi).
      inversion Hj; subst. apply Hown.
      rewrite Forall_lookup in Hall. exact (Hall i c Hi).
    + rewrite list_lookup_insert_ne in Hj by congruence.
      exact (Hothers j c' Hj Hji).
Qed.

(** However [fundAccount] calls on pairwise different accounts
    interleave, no update is lost: a call that has finished
    successfully has raised the balance its account had at the start
    by exactly its amount, and returns that balance. *)
Theorem different_accounts_no_lost_update (schedule : list nat)
    (inputs : list (Env * FundInput num)) (s0 : Store num)
    (c : Call num) (r : FundResult num) :
  NoDup ((fun i => fi_accountId i.2) <$> inputs) ->
  let run := run_schedule schedule
               ((fun i => new_call i.1 i.2) <$> inputs) s0 in
  c ∈ run.2 ->
  call_pc c = PcDone (inr r) ->
  exists account,
    accounts s0 !! fi_accountId (call_input c) = Some account
    /\ accounts run.1 !! fi_accountId (call_input c)
       = Some (with_balance account
                 (num_add (acc_balance account) (fi_amount (call_input c))))
    /\ fr_newBalance r
       = num_add (acc_balance account) (fi_amount (call_input c)).
Proof.
  intros Hnd run Hc Hpc.
  assert (Hall : Forall (call_progress s0 run.1) run.2).
  { apply run_schedule_progress.
    - rewrite <- list_fmap_compose. exact Hnd.
    - apply Forall_fmap, Forall_forall. intros [env input] _.
      unfold call_progress, new_call, start. simpl.
      destruct (fundAccount_schema input); [|reflexivity].
      destruct (fs_type _); [destruct (negb _)|]; reflexivity. }
  rewrite Forall_forall in Hall. specialize (Hall c Hc).
  unfold call_progress in Hall. rewrite Hpc in Hall. exact Hall.
Qed.

End IsolationProps.

(** ** Reading and isolation on exact decimals *)

Module DecimalReading.
Import SampleAccounts.


Lemma fund_then_history_witness :
  exists t a page,
    fr_transaction
      <$> (match (fundAccount later (Sample.card_funding 10.5%Q)
                    (Sample.journal_store 10.5%Q)).2 with
           | inr r => Some r
           | inl _ => None
           end) = Some (Some t)
    /\ accounts (fundAccount later (Sample.card_funding 10.5%Q)
                   (Sample.journal_store 10.5%Q)).1 !! 1 = Some a
    /\ (getTransactions later (mkTransactionsInput 1 (Some 10) None)
          (fundAccount later (Sample.card_funding 10.5%Q)
             (Sample.journal_store 10.5%Q)).1).2
       = inr (enrich t (Some a) :: page).
Proof.
  destruct (fundAccount later (Sample.card_funding 10.5%Q)
              (Sample.journal_store 10.5%Q)) as [s1 [e|r]] eqn:Hrun.
  - vm_compute in Hrun. discriminate.
  - destruct (fund_then_history later (Sample.card_funding 10.5%Q)
                (Sample.journal_store 10.5%Q) s1 r (Some 10) Hrun)
      as (t & a & page & Htx & Ha & Hpage).
    + intros t Ht _. now apply DecimalJournal.journal_store_clock.
    + reflexivity.
    + exists t, a, page. simpl in *. rewrite Htx, Hpage. auto.
Defined.

Lemma two_owners_NoDup :
  NoDup ((fun i : Env * FundInput Q => fi_accountId i.2) <$> two_owners).
Proof. apply (bool_decide_unpack _). vm_compute. exact I. Qed.

Lemma different_accounts_no_lost_update_witness :
  let run := run_schedule Sample.alternate
               ((fun i => new_call i.1 i.2) <$> two_owners)
               (Sample.journal_store 10.5%Q) in
  exists c r account,
    run.2 !! 1%nat = Some c
    /\ call_pc c = PcDone (inr r)
    /\ accounts (Sample.journal_store 10.5%Q) !! 2 = Some account
    /\ accounts run.1 !! 2
       = Some (with_balance account (num_add (acc_balance account) 0.25%Q))
    /\ fr_newBalance r = num_add (acc_balance account) 0.25%Q.
Proof.
  intros run.
  destruct (run.2 !! 1%nat) as [c|] eqn:Hlook;
    [|vm_compute in Hlook; discriminate].
  destruct (call_pc c) as [| | | | |[e|r]] eqn:Hpc;
    try (exfalso; revert Hpc; generalize Hlook; clear; intros Hlook;
         vm_compute in Hlook; inversion Hlook; subst c; discriminate).
  assert (Hid : fi_accountId (call_input c) = 2
                /\ fi_amount (call_input c) = 0.25%Q).
  { vm_compute in Hlook. inversion Hlook. subst c. split; reflexivity. }
  destruct Hid as [Hid Hamount].
  destruct (different_accounts_no_lost_update Sample.alternate two_owners
              (Sample.journal_store 10.5%Q) c r two_owners_NoDup)
    as (account & Ha0 & Ha & Hnew).
  - eapply list_elem_of_lookup_2. exact Hlook.
  - exact Hpc.
  - rewrite Hid, Hamount in *. exists c, r, account. auto.
Defined.

End DecimalReading.
